(** * Max-Cut as a QUBO: the notebook [Amazon-Braket-MaximumCut.ipynb]

    A shallow embedding of the notebook's own code: the graph literal, the
    loop turning edges into QUBO coefficients, the call handed to the
    sampler, the table printed from the response and the interpretation of
    the best sample.  Python integers are [Z]; the insertion-ordered
    dictionaries of networkx and of a sample are association lists; the
    [defaultdict(int)] holding the QUBO is a [gmap] keyed by pairs; the
    energies are binary64 floats. *)

From Stdlib Require Import ZArith List Floats.
From stdpp Require Import gmap list fin_maps strings pretty.

Open Scope Z_scope.

(** ** Insertion-ordered dictionaries *)

Module PyDict.
Section Dict.
Context {K V : Type} `{EqDecision K}.

(** [d[k]], [None] standing for [KeyError]. *)
Fixpoint get (d : list (K * V)) (k : K) : option V :=
  match d with
  | [] => None
  | (k', v) :: d' => if decide (k' = k) then Some v else get d' k
  end.

(** [k in d] *)
Definition mem (d : list (K * V)) (k : K) : bool :=
  match get d k with Some _ => true | None => false end.

(** [d[k] = v]: an existing key keeps its position, a new one goes last. *)
Fixpoint set (d : list (K * V)) (k : K) (v : V) : list (K * V) :=
  match d with
  | [] => [(k, v)]
  | (k', v') :: d' =>
      if decide (k' = k) then (k', v) :: d' else (k', v') :: set d' k v
  end.

(** [iter(d)] *)
Definition keys (d : list (K * V)) : list K := map fst d.
End Dict.
End PyDict.

(** ** The graph ([networkx.Graph], as far as the notebook uses it) *)

Definition node := Z.
Definition edge := (node * node)%type.

(** [Graph._adj]: node -> (neighbour -> edge data).  No edge of the
    notebook carries data, so the inner dictionary keeps unit values. *)
Record Graph := { adj : list (node * list (node * unit)) }.

Definition empty_graph : Graph := {| adj := [] |}.

(** One round of [Graph.add_edges_from]: both endpoints become nodes when
    they are new, then [_adj[u][v]] and [_adj[v][u]] are set. *)
Definition add_edge (g : Graph) (e : edge) : Graph :=
  let '(u, v) := e in
  let a0 := adj g in
  let a1 := if PyDict.mem a0 u then a0 else PyDict.set a0 u [] in
  let a2 := if PyDict.mem a1 v then a1 else PyDict.set a1 v [] in
  let a3 := PyDict.set a2 u (PyDict.set (default [] (PyDict.get a2 u)) v tt) in
  let a4 := PyDict.set a3 v (PyDict.set (default [] (PyDict.get a3 v)) u tt) in
  {| adj := a4 |}.

Definition add_edges_from (g : Graph) (es : list edge) : Graph :=
  foldl add_edge g es.

(** [G.nodes] *)
Definition nodes (g : Graph) : list node := PyDict.keys (adj g).

(** [G.edges] (EdgeView iteration): every node in turn reports the
    neighbours that have not been the reporting node before. *)
Fixpoint edges_from (a : list (node * list (node * unit))) (seen : list node)
  : list edge :=
  match a with
  | [] => []
  | (n, nbrs) :: a' =>
      map (λ nbr, (n, nbr))
          (filter (λ nbr, nbr ∉ seen) (PyDict.keys nbrs))
      ++ edges_from a' (n :: seen)
  end.

Definition edges (g : Graph) : list edge := edges_from (adj g) [].

(** [G.has_edge(u, v)] *)
Definition has_edge (g : Graph) (u v : node) : bool :=
  match PyDict.get (adj g) u with
  | Some nbrs => PyDict.mem nbrs v
  | None => false
  end.

(** [G.degree[n]]: the number of neighbours, a self-loop counting twice. *)
Definition degree (g : Graph) (n : node) : Z :=
  match PyDict.get (adj g) n with
  | Some nbrs => Z.of_nat (length nbrs) + (if PyDict.mem nbrs n then 1 else 0)
  | None => 0
  end.

(** The literal of the notebook. *)
Definition edge_literal : list edge :=
  [(1, 2); (1, 3); (2, 4); (3, 4); (3, 5); (4, 5)].

Definition G : Graph := add_edges_from empty_graph edge_literal.

(** ** The QUBO dictionary *)

(** [Q[k]] on a [defaultdict(int)]: reading a missing key first stores the
    default 0 under it. *)
Definition getitem (Q : gmap (Z * Z) Z) (k : Z * Z) : Z * gmap (Z * Z) Z :=
  match Q !! k with
  | Some q => (q, Q)
  | None => (0, <[k := 0]> Q)
  end.

(** [Q[k] += d]: [Q[k] = Q[k] + d]. *)
Definition iadd (Q : gmap (Z * Z) Z) (k : Z * Z) (d : Z) : gmap (Z * Z) Z :=
  let '(q, Q') := getitem Q k in <[k := q + d]> Q'.

(** The three augmented assignments of the loop body, in program order. *)
Definition body_updates (e : edge) : list ((Z * Z) * Z) :=
  let '(u, v) := e in [((u, u), -1); ((v, v), -1); ((u, v), 2)].

Definition run_updates (Q : gmap (Z * Z) Z) (ups : list ((Z * Z) * Z))
  : gmap (Z * Z) Z :=
  foldl (λ Q' up, iadd Q' up.1 up.2) Q ups.

(** [for u, v in G.edges: ...] *)
Definition loop_body (Q : gmap (Z * Z) Z) (e : edge) : gmap (Z * Z) Z :=
  run_updates Q (body_updates e).

Definition build_Q (es : list edge) : gmap (Z * Z) Z :=
  foldl loop_body ∅ es.

Definition Q : gmap (Z * Z) Z := build_Q (edges G).

(** The coefficients, written out. *)
Definition Q_literal : gmap (Z * Z) Z :=
  list_to_map
    [((1,1),-2); ((2,2),-2); ((3,3),-3); ((4,4),-3); ((5,5),-2);
     ((1,2),2); ((1,3),2); ((2,4),2); ((3,4),2); ((3,5),2); ((4,5),2)].

(** ** The QUBO objective and the cut size *)

(** The energy of an assignment [x]: the sum over the keys [(i, j)] of [Q]
    of [Q[(i, j)] * x i * x j].  On assignments of 0 and 1 it is the energy
    the sampler reports, [sampler_energy] below. *)
Definition qubo_objective (Q : gmap (Z * Z) Z) (x : Z → Z) : Z :=
  map_fold (λ k q acc, acc + q * x k.1 * x k.2) 0 Q.

(** The number of edges whose endpoints [x] tells apart. *)
Definition cut_size (es : list edge) (x : Z → Z) : Z :=
  Z.of_nat (length (filter (λ e : edge, x e.1 ≠ x e.2) es)).

Definition binary (z : Z) : Prop := z = 0 ∨ z = 1.

(** ** Samples and the response of the sampler *)

(** A sample (dimod's view of one row): variable -> value, in the
    variable order of the sample set. *)
Abbreviation sample := (list (node * Z)).

(** The value [x] reads at a variable, 0 where the sample has none. *)
Definition value (x : sample) (n : node) : Z := default 0 (PyDict.get x n).

(** One record of [response.data()]. *)
Record Sample := { sample_of : sample; energy : float }.

(** The response, as the notebook observes it: [iter(response)],
    [response.data()] and [response.lowest().first], which raises on an
    empty sample set. *)
Record SampleSet := {
  ss_iter : list sample;
  ss_data : list Sample;
  ss_lowest_first : option Sample
}.

(** The arguments of one [sample_qubo] call; [None] is a keyword left out. *)
Record SampleCall := {
  call_Q : gmap (Z * Z) Z;
  call_chain_strength : option Z;
  call_num_reads : option Z
}.

(** All assignments of 0 or 1 to the given variables. *)
Fixpoint assignments (vars : list node) : list sample :=
  match vars with
  | [] => [[]]
  | n :: vars' =>
      flat_map (λ x : sample, [(n, 0) :: x; (n, 1) :: x]) (assignments vars')
  end.

(** The partition {2, 3} against {1, 4, 5}: the first side is sent to 0. *)
Definition x_23 (n : Z) : Z := if decide (n = 2 ∨ n = 3) then 0 else 1.

(** ** Floats *)

(** The binary64 float nearest to an integer. *)
Definition float_of_Z (z : Z) : float :=
  SF2Prim (binary_normalize prec emax z 0 false).

(** [int(f)]: truncation towards zero; [None] for the [ValueError] on nan
    and the [OverflowError] on an infinity. *)
Definition py_int (f : float) : option Z :=
  match Prim2SF f with
  | S754_zero _ => Some 0
  | S754_finite s m e =>
      let a := if 0 <=? e then Z.pos m * 2 ^ e else Z.pos m / 2 ^ (- e) in
      Some (if s then - a else a)
  | S754_infinity _ => None
  | S754_nan => None
  end.

(** ** The results table *)

Record Row := {
  row_S0 : list node;
  row_S1 : list node;
  row_E : float;
  row_cut : Z
}.

(** [[k for k, v in line.items() if v == c]] *)
Definition items_with (c : Z) (line : sample) : list node :=
  map fst (filter (λ kv : node * Z, kv.2 = c) line).

(** [for line in response: ...], the [energies] iterator threaded through;
    [None] is [StopIteration] from [next] or an error of [int]. *)
Fixpoint print_rows (lines : list sample) (energies : list Sample)
  : option (list Row) :=
  match lines with
  | [] => Some []
  | line :: lines' =>
      let S0 := items_with 0 line in
      let S1 := items_with 1 line in
      match energies with
      | [] => None
      | d :: energies' =>
          let E := energy d in
          c ← py_int (float_of_Z (-1) * E)%float;
          rows ← print_rows lines' energies';
          Some ({| row_S0 := S0; row_S1 := S1; row_E := E; row_cut := c |} :: rows)
      end
  end.

(** The number of edges with one endpoint in [A] and the other in [B]. *)
Definition edges_between (es : list edge) (A B : list node) : Z :=
  Z.of_nat (length (filter
    (λ e : edge, (e.1 ∈ A ∧ e.2 ∈ B) ∨ (e.1 ∈ B ∧ e.2 ∈ A)) es)).

(** ** The best sample, in terms of nodes and edges *)

(** [[a for a in l if cond(a)]], [cond] possibly raising. *)
Fixpoint comprehension {A} (cond : A → option bool) (l : list A)
  : option (list A) :=
  match l with
  | [] => Some []
  | a :: l' =>
      b ← cond a;
      r ← comprehension cond l';
      Some (if (b : bool) then a :: r else r)
  end.

(** Truth value of an integer. *)
Definition truthy (v : Z) : bool := negb (v =? 0).

Record Interpretation := {
  S0 : list node;
  S1 : list node;
  cut_edges : list edge;
  uncut_edges : list edge
}.

Definition interpret (g : Graph) (lut : sample) : option Interpretation :=
  s0 ← comprehension (λ n, v ← PyDict.get lut n; Some (negb (truthy v))) (nodes g);
  s1 ← comprehension (λ n, v ← PyDict.get lut n; Some (truthy v)) (nodes g);
  ce ← comprehension
        (λ e : edge, a ← PyDict.get lut e.1; b ← PyDict.get lut e.2;
                     Some (negb (a =? b))) (edges g);
  ue ← comprehension
        (λ e : edge, a ← PyDict.get lut e.1; b ← PyDict.get lut e.2;
                     Some (a =? b)) (edges g);
  Some {| S0 := s0; S1 := s1; cut_edges := ce; uncut_edges := ue |}.

(** ** The cells of the notebook, over its namespace *)

(** The global names that carry the problem from the set-up cell to the
    dispatch; [None] is a name not bound yet. *)
Record Namespace := {
  ns_G : option Graph;
  ns_Q : option (gmap (Z * Z) Z);
  ns_chainstrength : option Z;
  ns_numruns : option Z
}.

Definition fresh_kernel : Namespace :=
  {| ns_G := None; ns_Q := None; ns_chainstrength := None; ns_numruns := None |}.

(** The cell that sets the problem up: what it binds.  Laying out and
    drawing the graph, which call into the plotting libraries and change
    neither [G] nor [Q], are left out. *)
Definition cell_setup (ns : Namespace) : Namespace :=
  let g := add_edges_from empty_graph edge_literal in
  let q := foldl loop_body ∅ (edges g) in
  {| ns_G := Some g; ns_Q := Some q;
     ns_chainstrength := ns_chainstrength ns; ns_numruns := ns_numruns ns |}.

(** The first statements of the solving cell: the two parameters. *)
Definition set_parameters (ns : Namespace) : Namespace :=
  {| ns_G := ns_G ns; ns_Q := ns_Q ns;
     ns_chainstrength := Some 8; ns_numruns := Some 10 |}.

(** The arguments of
    [sampler.sample_qubo(Q, chain_strength=chainstrength, num_reads=numruns)]. *)
Definition dispatch (ns : Namespace) : option SampleCall :=
  let ns' := set_parameters ns in
  q ← ns_Q ns';
  cs ← ns_chainstrength ns';
  nr ← ns_numruns ns';
  Some {| call_Q := q; call_chain_strength := Some cs; call_num_reads := Some nr |}.

Record Output := {
  out_call : SampleCall;
  out_rows : list Row;
  out_plot : Interpretation
}.

Section Solve.
(** The sampler of the cloud service, behind the embedding composite. *)
Variable sample_qubo : SampleCall → SampleSet.

(** The solving cell: what it computes from the response.  Building the
    sampler and drawing and saving the plot call into external libraries
    and are left out, and the sampler is taken as a function of the call;
    [None] stands for the errors of the notebook's own statements. *)
Definition cell_solve (ns : Namespace) : option (Namespace * Output) :=
  call ← dispatch ns;
  let response := sample_qubo call in
  let energies := ss_data response in
  rows ← print_rows (ss_iter response) energies;
  best ← ss_lowest_first response;
  let lut := sample_of best in
  g ← ns_G ns;
  plot ← interpret g lut;
  Some (set_parameters ns,
        {| out_call := call; out_rows := rows; out_plot := plot |}).

(** The two computing cells in order, from a fresh namespace. *)
Definition notebook : option (Namespace * Output) :=
  cell_solve (cell_setup fresh_kernel).
End Solve.

(** A sampler that always answers with the one sample {2, 3} | {1, 4, 5},
    and what the notebook shows for it. *)
Definition one_sample_sampler (c : SampleCall) : SampleSet :=
  let x := [(1, 1); (2, 0); (3, 0); (4, 1); (5, 1)] in
  let d := {| sample_of := x; energy := float_of_Z (-5) |} in
  {| ss_iter := [x]; ss_data := [d]; ss_lowest_first := Some d |}.

Definition one_sample_output : Output :=
  {| out_call := {| call_Q := Q; call_chain_strength := Some 8;
                    call_num_reads := Some 10 |};
     out_rows := [{| row_S0 := [2; 3]; row_S1 := [1; 4; 5];
                     row_E := float_of_Z (-5); row_cut := 5 |}];
     out_plot := {| S0 := [2; 3]; S1 := [1; 4; 5];
                    cut_edges := [(1, 2); (1, 3); (2, 4); (3, 4); (3, 5)];
                    uncut_edges := [(4, 5)] |} |}.

(** ** The energy as the sampler reads the QUBO *)

(** [sample_qubo] turns the mapping into a binary quadratic model: the
    entry of a diagonal key [(i, i)] is the linear bias of [i] and counts
    once with [x i]; the entry of any other key [(i, j)] counts with
    [x i * x j]. *)
Definition sampler_energy (Q : gmap (Z * Z) Z) (x : Z → Z) : Z :=
  map_fold (λ k q acc,
              acc + q * (if decide (k.1 = k.2) then x k.1 else x k.1 * x k.2))
           0 Q.

(** The spins of the partition {2, 3} against {1, 4, 5}. *)
Definition spin_23 (n : Z) : Z := if decide (n = 2 ∨ n = 3) then -1 else 1.

(** ** Reading the QUBO of an arbitrary edge list *)

(** The coefficient of the pair [k] in [Q], 0 for a key [Q] does not hold. *)
Definition coefficient (Q : gmap (Z * Z) Z) (k : Z * Z) : Z :=
  default 0 (Q !! k).

(** The sum of the squared differences of [x] over the edges. *)
Definition squared_differences (es : list edge) (x : Z → Z) : Z :=
  foldr (λ (e : edge) acc, (x e.1 - x e.2) * (x e.1 - x e.2) + acc) 0 es.

(** The other side of the partition: 0 and 1 exchanged. *)
Definition flip (x : Z → Z) (n : Z) : Z := 1 - x n.

(** ** A response that fits the problem *)

(** Every sample of the response lists its variables once and gives each
    node of [G] the value 0 or 1, every energy is the objective of the
    sample it is paired with, and there is a lowest sample, over exactly
    the nodes of [G]. *)
Definition fits_problem (response : SampleSet) : Prop :=
  Forall (λ line : sample,
            NoDup (PyDict.keys line) ∧
            ∀ n, n ∈ nodes G → ∃ b, PyDict.get line n = Some b ∧ (b = 0 ∨ b = 1))
         (ss_iter response) ∧
  Forall2 (λ (line : sample) d,
             energy d = float_of_Z (qubo_objective Q (value line)))
          (ss_iter response) (ss_data response) ∧
  ∃ best, ss_lowest_first response = Some best ∧
          NoDup (PyDict.keys (sample_of best)) ∧
          PyDict.keys (sample_of best) ≡ₚ nodes G ∧
          Forall (λ kv : node * Z, kv.2 = 0 ∨ kv.2 = 1) (sample_of best).

(** ** The text of the table *)

Definition spaces (n : nat) : string := String.concat "" (replicate n " "%string).

(** ['{:>15s}'.format(s)]: padded on the left up to the width, never cut. *)
Definition rjust (width : nat) (s : string) : string :=
  String.append (spaces (width - String.length s)) s.

(** ['{:^15s}'.format(s)]: of an odd padding the smaller half goes left. *)
Definition center (width : nat) (s : string) : string :=
  let pad := (width - String.length s)%nat in
  String.append (spaces (pad / 2))
                (String.append s (spaces (pad - pad / 2))).

(** [str] of an integer. *)
Definition str_int (z : Z) : string := pretty z.

(** [', '.join(parts)] *)
Fixpoint join_comma (parts : list string) : string :=
  match parts with
  | [] => ""
  | [a] => a
  | a :: rest => String.append a (String.append ", " (join_comma rest))
  end.

(** [str] of a list of integers. *)
Definition str_list (l : list Z) : string :=
  String.append "[" (String.append (join_comma (map str_int l)) "]").

(** ['{:>15s}{:>15s}{:^15s}{:^15s}'.format(a, b, c, d)] *)
Definition format_line (a b c d : string) : string :=
  String.append (rjust 15 a)
    (String.append (rjust 15 b) (String.append (center 15 c) (center 15 d))).

(** ['-' * 60] *)
Definition rule : string := String.concat "" (replicate 60 "-"%string).

Definition header : string := format_line "Set 0" "Set 1" "Energy" "Cut Size".

(** ** Reading a graph *)

(** [list(G[u])]: the neighbours of [u], none for a node the graph lacks. *)
Definition neighbours (g : Graph) (u : node) : list node :=
  PyDict.keys (default [] (PyDict.get (adj g) u)).

(** The nodes that come before [x] in the node order of an adjacency. *)
Fixpoint before (a : list (node * list (node * unit))) (x : node) : list node :=
  match a with
  | [] => []
  | (n, _) :: a' => if decide (n = x) then [] else n :: before a' x
  end.

(** The two kinds of step of [add_edge]: making sure a node is there, and
    recording [v] among the neighbours of [u]. *)
Definition ensure (a : list (node * list (node * unit))) (u : node) :=
  if PyDict.mem a u then a else PyDict.set a u [].

Definition link (a : list (node * list (node * unit))) (u v : node) :=
  PyDict.set a u (PyDict.set (default [] (PyDict.get a u)) v tt).

(** What every graph built by [add_edges_from] satisfies: nodes and
    neighbours are listed once, adjacency is symmetric and stays among the
    nodes. *)
Definition graph_wf (g : Graph) : Prop :=
  NoDup (nodes g) ∧
  (∀ x, NoDup (neighbours g x)) ∧
  (∀ x y, y ∈ neighbours g x → x ∈ neighbours g y) ∧
  (∀ x y, y ∈ neighbours g x → x ∈ nodes g ∧ y ∈ nodes g).

(** The sample of the first row of the recorded output, {2, 3} against
    {1, 4, 5}. *)
Definition first_recorded_sample : sample :=
  [(1, 1); (2, 0); (3, 0); (4, 1); (5, 1)].

(** * Properties *)

(** ** The literals, evaluated *)

Lemma G_nodes : nodes G = [1; 2; 3; 4; 5].
Proof. vm_compute. reflexivity. Qed.

Lemma G_edges : edges G = edge_literal.
Proof. vm_compute. reflexivity. Qed.

Lemma Q_value : Q = Q_literal.
Proof. vm_compute. reflexivity. Qed.

Lemma Q_items :
  map_to_list Q ≡ₚ
    [((1,1),-2); ((2,2),-2); ((3,3),-3); ((4,4),-3); ((5,5),-2);
     ((1,2),2); ((1,3),2); ((2,4),2); ((3,4),2); ((3,5),2); ((4,5),2)].
Proof.
  rewrite Q_value. unfold Q_literal. apply map_to_list_to_map.
  compute_done.
Qed.

(** ** The objective of the constructed QUBO *)

Section Objective.
Variable x : Z → Z.

Lemma objective_insert_fresh (M : gmap (Z * Z) Z) k q :
  M !! k = None →
  qubo_objective (<[k := q]> M) x = qubo_objective M x + q * x k.1 * x k.2.
Proof.
  intros Hk. unfold qubo_objective.
  rewrite map_fold_insert_L; [reflexivity | | exact Hk].
  intros; lia.
Qed.

Lemma objective_insert (M : gmap (Z * Z) Z) k q :
  qubo_objective (<[k := q]> M) x
  = qubo_objective M x + (q - default 0 (M !! k)) * x k.1 * x k.2.
Proof.
  destruct (M !! k) as [q0|] eqn:Hk; simpl.
  - rewrite <- (insert_delete_eq M k q).
    rewrite <- (insert_id M k q0 Hk) at 2.
    rewrite <- (insert_delete_eq M k q0).
    rewrite !objective_insert_fresh by apply lookup_delete_eq. lia.
  - rewrite objective_insert_fresh by exact Hk. lia.
Qed.

Lemma objective_iadd (M : gmap (Z * Z) Z) k d :
  qubo_objective (iadd M k d) x = qubo_objective M x + d * x k.1 * x k.2.
Proof.
  unfold iadd, getitem. destruct (M !! k) as [q0|] eqn:Hk.
  - rewrite objective_insert, Hk. simpl. lia.
  - rewrite insert_insert_eq, objective_insert, Hk. simpl. lia.
Qed.

Lemma objective_loop_body (M : gmap (Z * Z) Z) (e : edge) :
  qubo_objective (loop_body M e) x
  = qubo_objective M x - (x e.1 - x e.2) * (x e.1 - x e.2).
Proof.
  destruct e as [u v]. unfold loop_body, run_updates, body_updates. simpl.
  rewrite !objective_iadd. simpl. lia.
Qed.

Lemma cut_size_cons (e : edge) (es : list edge) :
  binary (x e.1) → binary (x e.2) →
  cut_size (e :: es) x = cut_size es x + (x e.1 - x e.2) * (x e.1 - x e.2).
Proof.
  intros H1 H2. unfold cut_size. rewrite filter_cons.
  destruct (decide (x e.1 ≠ x e.2)) as [Hne|Heq]; simpl length.
  - destruct H1 as [H1 | H1], H2 as [H2 | H2]; rewrite H1, H2 in *;
      first [lia | congruence].
  - apply dec_stable in Heq. rewrite Heq. lia.
Qed.

Lemma objective_foldl (es : list edge) (M : gmap (Z * Z) Z) :
  Forall (λ e : edge, binary (x e.1) ∧ binary (x e.2)) es →
  qubo_objective (foldl loop_body M es) x = qubo_objective M x - cut_size es x.
Proof.
  intros Hes. revert M. induction Hes as [|e es [H1 H2] _ IH]; intros M.
  - unfold cut_size. simpl. lia.
  - simpl foldl. rewrite IH, objective_loop_body, cut_size_cons by assumption. lia.
Qed.

Lemma objective_build_Q (es : list edge) :
  Forall (λ e : edge, binary (x e.1) ∧ binary (x e.2)) es →
  qubo_objective (build_Q es) x = - cut_size es x.
Proof.
  intros Hes. unfold build_Q. rewrite objective_foldl by exact Hes.
  unfold qubo_objective. rewrite map_fold_empty. lia.
Qed.
End Objective.

Lemma on_nodes_G (P : node → Prop) :
  (∀ n, n ∈ nodes G → P n) → P 1 ∧ P 2 ∧ P 3 ∧ P 4 ∧ P 5.
Proof.
  rewrite G_nodes. intros H. repeat split; apply H; compute_done.
Qed.

(** Every edge of [G] joins two nodes of [G]. *)
Lemma edges_G_in_nodes :
  Forall (λ e : edge, e.1 ∈ nodes G ∧ e.2 ∈ nodes G) (edges G).
Proof.
  rewrite G_edges, G_nodes. unfold edge_literal.
  repeat constructor; simpl; set_solver.
Qed.

Lemma binary_on_edges (x : Z → Z) :
  (∀ n, n ∈ nodes G → binary (x n)) →
  Forall (λ e : edge, binary (x e.1) ∧ binary (x e.2)) (edges G).
Proof.
  intros Hx. eapply Forall_impl; [apply edges_G_in_nodes|].
  intros e [H1 H2]. split; apply Hx; assumption.
Qed.

Lemma objective_Q (x : Z → Z) :
  (∀ n, n ∈ nodes G → binary (x n)) →
  qubo_objective Q x = - cut_size (edges G) x.
Proof.
  intros Hx. unfold Q. apply objective_build_Q, binary_on_edges, Hx.
Qed.

(** C1: for every assignment [x] of 0 or 1 to each of the five nodes, the
    QUBO objective, the sum over the keys [(i, j)] of [Q] of
    [Q[(i, j)] * x i * x j], is minus the number of edges [(u, v)] of [G]
    with [x u <> x v]. *)
Theorem C1_objective_is_minus_cut (x : Z → Z) :
  (∀ n, n ∈ nodes G → x n = 0 ∨ x n = 1) →
  qubo_objective Q x = - cut_size (edges G) x.
Proof.
  intros Hx. unfold Q.
  apply objective_build_Q.
  eapply Forall_impl; [apply edges_G_in_nodes|].
  intros e [H1 H2]. split; apply Hx; assumption.
Qed.

Lemma x_23_binary (n : Z) : x_23 n = 0 ∨ x_23 n = 1.
Proof. unfold x_23. destruct (decide (n = 2 ∨ n = 3)); [left | right]; reflexivity. Defined.

Lemma C1_witness : qubo_objective Q x_23 = - cut_size (edges G) x_23.
Proof. apply (C1_objective_is_minus_cut x_23). intros n _. apply x_23_binary. Defined.

(** ** The conversion loop as one pass of updates *)

Lemma run_updates_app (M : gmap (Z * Z) Z) (l k : list ((Z * Z) * Z)) :
  run_updates M (l ++ k) = run_updates (run_updates M l) k.
Proof. unfold run_updates. apply foldl_app. Qed.

Lemma loop_as_updates (es : list edge) (M : gmap (Z * Z) Z) :
  foldl loop_body M es = run_updates M (flat_map body_updates es).
Proof.
  revert M. induction es as [|e es IH]; intros M; simpl.
  - reflexivity.
  - rewrite IH, run_updates_app. reflexivity.
Qed.

Lemma updates_count (es : list edge) :
  length (flat_map body_updates es) = (3 * length es)%nat.
Proof.
  induction es as [|[u v] es IH]; simpl; [reflexivity | rewrite IH; lia].
Qed.

(** The entries of [Q], one case per key. *)
Ltac each_item H :=
  repeat (apply elem_of_cons in H as [H | H]; [simplify_eq |]);
  try (apply elem_of_nil in H; destruct H).

(** C2: the conversion is one pass over the edge list making exactly three
    updates per edge; after it [Q[(i, i)]] is minus the degree of [i] for
    every node [i], [Q[(u, v)]] is 2 for every edge in the listed
    orientation, and no other entry of [Q] is nonzero. *)
Theorem C2_conversion_pass :
  Q = run_updates ∅ (flat_map body_updates (edges G)) ∧
  (∀ e, length (body_updates e) = 3%nat) ∧
  length (flat_map body_updates (edges G)) = (3 * length (edges G))%nat ∧
  (∀ i, i ∈ nodes G → Q !! (i, i) = Some (- degree G i)) ∧
  (∀ u v, (u, v) ∈ edges G → Q !! (u, v) = Some 2) ∧
  (∀ k q, Q !! k = Some q → q ≠ 0 →
          (∃ i, i ∈ nodes G ∧ k = (i, i)) ∨ k ∈ edges G).
Proof.
  split; [apply loop_as_updates|].
  split; [intros [u v]; reflexivity|].
  split; [apply updates_count|].
  split; [|split].
  - intros i Hi. rewrite G_nodes in Hi. each_item Hi; vm_compute; reflexivity.
  - intros u v He. rewrite G_edges in He. unfold edge_literal in He.
    each_item He; vm_compute; reflexivity.
  - intros k q Hk _. apply elem_of_map_to_list in Hk. rewrite Q_items in Hk.
    rewrite G_nodes, G_edges. unfold edge_literal.
    each_item Hk; first [left; eexists; split; [|reflexivity]; set_solver
                        | right; set_solver].
Qed.

(** ** The graph literal *)

Lemma G_adj :
  adj G = [(1, [(2, ()); (3, ())]); (2, [(1, ()); (4, ())]);
           (3, [(1, ()); (4, ()); (5, ())]); (4, [(2, ()); (3, ()); (5, ())]);
           (5, [(3, ()); (4, ())])].
Proof. vm_compute. reflexivity. Qed.

Lemma has_edge_G (u v : node) :
  has_edge G u v = true ↔ (u, v) ∈ edge_literal ∨ (v, u) ∈ edge_literal.
Proof.
  unfold has_edge, PyDict.mem, edge_literal. rewrite G_adj. split.
  - simpl. repeat (case_decide; subst; simpl); try discriminate; intros _; compute_done.
  - intros [H | H]; each_item H; reflexivity.
Qed.

Lemma cell_setup_binds (ns : Namespace) :
  ns_G (cell_setup ns) = Some G ∧
  ns_Q (cell_setup ns) = Some (build_Q (edges G)).
Proof.
  cbv beta iota zeta delta [cell_setup ns_G ns_Q build_Q G].
  split; reflexivity.
Qed.

Lemma set_parameters_frame (ns : Namespace) :
  ns_G (set_parameters ns) = ns_G ns ∧ ns_Q (set_parameters ns) = ns_Q ns.
Proof. split; reflexivity. Qed.

(** C3: [G] has exactly the five nodes 1..5 and exactly the six undirected
    edges of the literal; the cell takes no input, so whatever the
    namespace was, it binds the same [G] and the same [Q]. *)
Theorem C3_graph_literal :
  nodes G = [1; 2; 3; 4; 5] ∧ NoDup (nodes G) ∧ length (nodes G) = 5%nat ∧
  edges G = [(1, 2); (1, 3); (2, 4); (3, 4); (3, 5); (4, 5)] ∧
  NoDup (edges G) ∧ length (edges G) = 6%nat ∧
  (∀ u v, has_edge G u v = true ↔
          (u, v) ∈ edges G ∨ (v, u) ∈ edges G) ∧
  (∀ u v, has_edge G u v = has_edge G v u) ∧
  (∀ ns, ns_G (cell_setup ns) = Some G ∧ ns_Q (cell_setup ns) = Some Q).
Proof.
  rewrite G_edges, G_nodes. unfold edge_literal.
  split; [reflexivity|]. split; [compute_done|]. split; [reflexivity|].
  split; [reflexivity|]. split; [compute_done|]. split; [reflexivity|].
  split; [exact has_edge_G|]. split; [|unfold Q; exact cell_setup_binds].
  intros u v. apply eq_true_iff_eq. rewrite !has_edge_G. tauto.
Qed.

(** ** The keys of [Q] *)

(** C9: after the loop [Q] has exactly 11 keys, the diagonal key of each
    node and the key of each edge in the listed orientation; no reversed
    key is present, so [Q] is not symmetric as a mapping. *)
Theorem C9_keys_of_Q :
  size Q = 11%nat ∧
  dom Q = list_to_set (map (λ i, (i, i)) (nodes G) ++ edges G) ∧
  (∀ u v, (u, v) ∈ edges G → Q !! (v, u) = None) ∧
  ¬ (∀ u v, Q !! (u, v) = Q !! (v, u)).
Proof.
  split; [vm_compute; reflexivity|].
  split; [vm_compute; reflexivity|].
  split.
  - intros u v He. rewrite G_edges in He. unfold edge_literal in He.
    each_item He; vm_compute; reflexivity.
  - intros Hsym. specialize (Hsym 1 2). vm_compute in Hsym. discriminate.
Qed.

(** ** The dispatch *)

Lemma dispatch_spec (ns : Namespace) (c : SampleCall) :
  dispatch ns = Some c →
  ns_Q ns = Some (call_Q c) ∧
  call_chain_strength c = Some 8 ∧ call_num_reads c = Some 10.
Proof.
  unfold dispatch. simpl. destruct (ns_Q ns) as [q|]; simpl; [|discriminate].
  intros [= <-]. repeat split.
Qed.

Lemma dispatch_after_setup (ns : Namespace) :
  dispatch (cell_setup ns)
  = Some {| call_Q := build_Q (edges G);
            call_chain_strength := Some 8; call_num_reads := Some 10 |}.
Proof.
  cbv beta iota zeta delta
    [dispatch set_parameters cell_setup ns_G ns_Q ns_chainstrength ns_numruns
     build_Q G mbind option_bind].
  reflexivity.
Qed.

Lemma cell_solve_call sample_qubo (ns ns' : Namespace) (out : Output) :
  cell_solve sample_qubo ns = Some (ns', out) →
  dispatch ns = Some (out_call out) ∧
  ns' = set_parameters ns ∧
  print_rows (ss_iter (sample_qubo (out_call out)))
             (ss_data (sample_qubo (out_call out))) = Some (out_rows out).
Proof.
  unfold cell_solve. intros H.
  destruct (dispatch ns) as [c|]; simpl in H; [|discriminate].
  destruct (print_rows _ _) as [rows|] eqn:Hrows; simpl in H; [|discriminate].
  destruct (ss_lowest_first _) as [best|]; simpl in H; [|discriminate].
  destruct (ns_G ns) as [g|]; simpl in H; [|discriminate].
  destruct (interpret g _) as [plot|]; simpl in H; [|discriminate].
  injection H as <- <-. simpl. rewrite Hrows. repeat split.
Qed.

Lemma notebook_one_sample :
  notebook one_sample_sampler
  = Some (set_parameters (cell_setup fresh_kernel), one_sample_output).
Proof. vm_compute. reflexivity. Defined.

(** C5, as stated, fails: the call dispatched by the notebook carries a
    chain strength of the notebook's own choosing, 8. *)
Lemma C5_counterexample :
  ∃ c, dispatch (cell_setup fresh_kernel) = Some c ∧
       call_chain_strength c = Some 8 ∧ call_chain_strength c ≠ None.
Proof.
  eexists. split; [apply dispatch_after_setup|]. simpl. split; [reflexivity | discriminate].
Qed.

(** C5, amended: the sampling (annealing, embedding) is done by the
    external sampler, whose response is what the table is printed from,
    and nothing is tuned here; but the notebook does select the chain
    strength of the call: the constant 8, with 10 reads, whatever the
    QUBO and whatever the sampler. *)
Theorem C5_fixed_chain_strength sample_qubo (ns ns' : Namespace) (out : Output) :
  cell_solve sample_qubo ns = Some (ns', out) →
  call_chain_strength (out_call out) = Some 8 ∧
  call_num_reads (out_call out) = Some 10 ∧
  print_rows (ss_iter (sample_qubo (out_call out)))
             (ss_data (sample_qubo (out_call out))) = Some (out_rows out).
Proof.
  intros H. apply cell_solve_call in H as (Hd & _ & Hrows).
  apply dispatch_spec in Hd as (_ & Hcs & Hnr). auto.
Qed.

Lemma C5_witness :
  call_chain_strength (out_call one_sample_output) = Some 8 ∧
  call_num_reads (out_call one_sample_output) = Some 10 ∧
  print_rows (ss_iter (one_sample_sampler (out_call one_sample_output)))
             (ss_data (one_sample_sampler (out_call one_sample_output)))
  = Some (out_rows one_sample_output).
Proof.
  exact (C5_fixed_chain_strength one_sample_sampler (cell_setup fresh_kernel)
           (set_parameters (cell_setup fresh_kernel)) one_sample_output
           notebook_one_sample).
Defined.

(** C6: the QUBO is built before the dispatch and not touched in between:
    whatever the namespace before the set-up cell, the [Q] handed to
    [sample_qubo] is the mapping the conversion loop produced, and it is
    still the [Q] of the namespace afterwards. *)
Theorem C6_Q_dispatched_unmodified :
  (∀ ns, call_Q <$> dispatch (cell_setup ns) = Some (build_Q (edges G))) ∧
  (∀ ns, ns_Q (set_parameters (cell_setup ns)) = ns_Q (cell_setup ns)) ∧
  (∀ sample_qubo ns ns' out,
     cell_solve sample_qubo (cell_setup ns) = Some (ns', out) →
     call_Q (out_call out) = build_Q (edges G) ∧
     ns_Q ns' = Some (build_Q (edges G))).
Proof.
  split; [|split].
  - intros ns. rewrite dispatch_after_setup. reflexivity.
  - intros ns. apply set_parameters_frame.
  - intros sample_qubo ns ns' out H.
    apply cell_solve_call in H as (Hd & -> & _).
    rewrite dispatch_after_setup in Hd. injection Hd as <-. split; [reflexivity|].
    rewrite (proj2 (set_parameters_frame _)). apply cell_setup_binds.
Qed.

(** ** The maximum cut *)

Lemma cut_size_G (x : Z → Z) :
  cut_size (edges G) x
  = Z.of_nat (length
      ((if decide (x 1 ≠ x 2) then [(1, 2)] else []) ++
       (if decide (x 1 ≠ x 3) then [(1, 3)] else []) ++
       (if decide (x 2 ≠ x 4) then [(2, 4)] else []) ++
       (if decide (x 3 ≠ x 4) then [(3, 4)] else []) ++
       (if decide (x 3 ≠ x 5) then [(3, 5)] else []) ++
       (if decide (x 4 ≠ x 5) then [(4, 5)] else []) : list edge)).
Proof.
  unfold cut_size. rewrite G_edges. unfold edge_literal.
  rewrite !filter_cons, filter_nil. cbn [fst snd].
  repeat case_decide; reflexivity.
Qed.

(** No assignment tells the ends of all three edges of the triangle
    3 - 4 - 5 apart, so at most five edges are cut. *)
Lemma cut_size_G_le_5 (x : Z → Z) :
  (∀ n, n ∈ nodes G → binary (x n)) → cut_size (edges G) x ≤ 5.
Proof.
  intros Hx. rewrite cut_size_G.
  destruct (on_nodes_G _ Hx) as (_ & _ & H3 & H4 & H5).
  rewrite !length_app.
  destruct (decide (x 3 ≠ x 4)), (decide (x 3 ≠ x 5)), (decide (x 4 ≠ x 5));
    repeat case_decide; simpl length; try lia.
  all: destruct H3 as [H3 | H3], H4 as [H4 | H4], H5 as [H5 | H5]; congruence.
Qed.

Lemma x_23_objective : qubo_objective Q x_23 = -5.
Proof. vm_compute. reflexivity. Qed.

Lemma x_23_cut : cut_size (edges G) x_23 = 5.
Proof. vm_compute. reflexivity. Qed.

(** C7: over the 32 binary assignments of the five nodes the least value
    of the objective is -5; equivalently the maximum cut has size 5, it is
    reached by {2, 3} against {1, 4, 5}, and no partition cuts all six
    edges. *)
Theorem C7_maximum_cut :
  length (assignments (nodes G)) = 32%nat ∧
  Forall (λ s, -5 ≤ qubo_objective Q (value s)) (assignments (nodes G)) ∧
  Exists (λ s, qubo_objective Q (value s) = -5) (assignments (nodes G)) ∧
  (∀ x, (∀ n, n ∈ nodes G → x n = 0 ∨ x n = 1) →
        -5 ≤ qubo_objective Q x ∧ cut_size (edges G) x ≤ 5 ∧
        cut_size (edges G) x ≠ 6) ∧
  filter (λ n, x_23 n = 0) (nodes G) = [2; 3] ∧
  filter (λ n, x_23 n = 1) (nodes G) = [1; 4; 5] ∧
  qubo_objective Q x_23 = -5 ∧ cut_size (edges G) x_23 = 5.
Proof.
  split; [vm_compute; reflexivity|].
  split; [compute_done|].
  split; [compute_done|].
  split.
  - intros x Hx. pose proof (cut_size_G_le_5 x Hx).
    rewrite (objective_Q x Hx). lia.
  - split; [vm_compute; reflexivity|]. split; [vm_compute; reflexivity|].
    split; [apply x_23_objective | apply x_23_cut].
Qed.

(** ** The best sample as a partition of nodes and of edges *)

Section Comprehension.
Context {A : Type}.

Lemma comprehension_filter (cond : A → option bool) (p : A → bool) (l : list A) :
  Forall (λ a, cond a = Some (p a)) l →
  comprehension cond l = Some (filter (λ a, p a = true) l).
Proof.
  induction 1 as [|a l Ha _ IH]; simpl; [reflexivity|].
  rewrite Ha, IH. simpl. rewrite filter_cons.
  destruct (p a); simpl; try case_decide; congruence.
Qed.

Lemma filter_complement (p q : A → bool) (l : list A) :
  (∀ a, q a = negb (p a)) →
  filter (λ a, p a = true) l ++ filter (λ a, q a = true) l ≡ₚ l ∧
  (∀ a, a ∈ filter (λ a, p a = true) l → a ∉ filter (λ a, q a = true) l).
Proof.
  intros Hq. split.
  - rewrite <- (filter_app_complement (λ a, p a = true) l) at 3.
    f_equiv. apply reflexive_eq, list_filter_iff. intros a. rewrite Hq.
    destruct (p a); simpl; split; congruence.
  - intros a [Hp _]%list_elem_of_filter [Hq' _]%list_elem_of_filter.
    rewrite Hq, Hp in Hq'. discriminate.
Qed.
End Comprehension.

Lemma value_get (x : sample) (n : node) (b : Z) :
  PyDict.get x n = Some b → value x n = b.
Proof. unfold value. intros ->. reflexivity. Qed.

(** C4: for every sample [lut] giving each node of [G] the value 0 or 1,
    the lists [S0] (nodes with a false value) and [S1] (nodes with a true
    value) are disjoint and together are the nodes of [G], and [cut_edges]
    and [uncut_edges] are disjoint and together are the edges of [G]. *)
Theorem C4_plot_partitions (lut : sample) :
  (∀ n, n ∈ nodes G → ∃ b, PyDict.get lut n = Some b ∧ (b = 0 ∨ b = 1)) →
  ∃ r, interpret G lut = Some r ∧
       S0 r = filter (λ n, value lut n = 0) (nodes G) ∧
       S1 r = filter (λ n, value lut n ≠ 0) (nodes G) ∧
       cut_edges r = filter (λ e : edge, value lut e.1 ≠ value lut e.2) (edges G) ∧
       uncut_edges r = filter (λ e : edge, value lut e.1 = value lut e.2) (edges G) ∧
       S0 r ++ S1 r ≡ₚ nodes G ∧ (∀ n, n ∈ S0 r → n ∉ S1 r) ∧
       cut_edges r ++ uncut_edges r ≡ₚ edges G ∧
       (∀ e, e ∈ cut_edges r → e ∉ uncut_edges r).
Proof.
  intros Hlut.
  assert (Hn : ∀ n, n ∈ nodes G → PyDict.get lut n = Some (value lut n)).
  { intros n [b [Hb _]]%Hlut. rewrite (value_get _ _ _ Hb). exact Hb. }
  assert (He : Forall (λ e : edge,
              PyDict.get lut e.1 = Some (value lut e.1) ∧
              PyDict.get lut e.2 = Some (value lut e.2)) (edges G)).
  { eapply Forall_impl; [apply edges_G_in_nodes|]. intros e [H1 H2]. auto. }
  unfold interpret.
  rewrite (comprehension_filter
             (λ n, v ← PyDict.get lut n; Some (negb (truthy v)))
             (λ n, negb (truthy (value lut n)))); cycle 1.
  { apply Forall_forall. intros n Hin. rewrite (Hn n Hin). reflexivity. }
  rewrite (comprehension_filter
             (λ n, v ← PyDict.get lut n; Some (truthy v))
             (λ n, truthy (value lut n))); cycle 1.
  { apply Forall_forall. intros n Hin. rewrite (Hn n Hin). reflexivity. }
  rewrite (comprehension_filter
             (λ e : edge, a ← PyDict.get lut e.1; b ← PyDict.get lut e.2;
                          Some (negb (a =? b)))
             (λ e : edge, negb (value lut e.1 =? value lut e.2))); cycle 1.
  { eapply Forall_impl; [exact He|]. intros e [-> ->]. reflexivity. }
  rewrite (comprehension_filter
             (λ e : edge, a ← PyDict.get lut e.1; b ← PyDict.get lut e.2;
                          Some (a =? b))
             (λ e : edge, value lut e.1 =? value lut e.2)); cycle 1.
  { eapply Forall_impl; [exact He|]. intros e [-> ->]. reflexivity. }
  simpl. eexists. split; [reflexivity|]. simpl.
  destruct (filter_complement (λ n, negb (truthy (value lut n)))
              (λ n, truthy (value lut n)) (nodes G)) as [Hp Hd].
  { intros n. symmetry. apply negb_involutive. }
  destruct (filter_complement
              (λ e : edge, negb (value lut e.1 =? value lut e.2))
              (λ e : edge, value lut e.1 =? value lut e.2) (edges G)) as [Hpe Hde].
  { intros e. symmetry. apply negb_involutive. }
  split; [|split; [|split; [|split]]]; try (repeat split; assumption).
  - apply list_filter_iff. intros n. unfold truthy. rewrite negb_involutive. lia.
  - apply list_filter_iff. intros n. unfold truthy. rewrite negb_true_iff. lia.
  - apply list_filter_iff. intros e. rewrite negb_true_iff. lia.
  - apply list_filter_iff. intros e. lia.
Qed.

Lemma C4_witness :
  ∃ r, interpret G [(1, 1); (2, 0); (3, 0); (4, 1); (5, 1)] = Some r ∧
       S0 r ++ S1 r ≡ₚ nodes G ∧ (∀ n, n ∈ S0 r → n ∉ S1 r) ∧
       cut_edges r ++ uncut_edges r ≡ₚ edges G ∧
       (∀ e, e ∈ cut_edges r → e ∉ uncut_edges r).
Proof.
  destruct (C4_plot_partitions [(1, 1); (2, 0); (3, 0); (4, 1); (5, 1)])
    as (r & Hr & _ & _ & _ & _ & H).
  - intros n Hn. rewrite G_nodes in Hn.
    each_item Hn; eexists; (split; [reflexivity|]); lia.
  - exists r. split; assumption.
Defined.

(** ** The results table *)

Lemma items_with_spec (line : sample) (c : Z) (k : node) :
  NoDup (PyDict.keys line) →
  k ∈ items_with c line ↔ PyDict.get line k = Some c.
Proof.
  unfold items_with, PyDict.keys.
  induction line as [|[k' v] line IH]; intros Hnd.
  - split; [intros []%elem_of_nil | discriminate].
  - cbn [map fst] in Hnd. apply NoDup_cons in Hnd as [Hk' Hnd]. specialize (IH Hnd).
    assert (Hfresh : ∀ c', PyDict.get line k' = Some c' → False).
    { intros c' Hc'. apply Hk'. clear -Hc'.
      induction line as [|[k0 v0] line IH]; simpl in *; [discriminate|].
      case_decide; [subst; left | right; auto]. }
    rewrite filter_cons. cbn [PyDict.get snd].
    destruct (decide (v = c)) as [-> | Hvc];
      destruct (decide (k' = k)) as [-> | Hkk]; cbn [map fst].
    + split; [reflexivity | intros _; left].
    + rewrite elem_of_cons, IH. split; [intros [? | ?]; congruence | auto].
    + rewrite IH. split; [intros H; destruct (Hfresh _ H) | congruence].
    + exact IH.
Qed.

Lemma edges_between_cut (line : sample) (es : list edge) :
  NoDup (PyDict.keys line) →
  Forall (λ e : edge,
            (∃ b, PyDict.get line e.1 = Some b ∧ binary b) ∧
            (∃ b, PyDict.get line e.2 = Some b ∧ binary b)) es →
  edges_between es (items_with 0 line) (items_with 1 line)
  = cut_size es (value line).
Proof.
  intros Hnd Hes. unfold edges_between, cut_size.
  induction Hes as [|e es [(a & Ha & Hba) (b & Hb & Hbb)] _ IH];
    [reflexivity|].
  rewrite !filter_cons.
  assert (Hiff : (e.1 ∈ items_with 0 line ∧ e.2 ∈ items_with 1 line)
                 ∨ (e.1 ∈ items_with 1 line ∧ e.2 ∈ items_with 0 line)
                 ↔ value line e.1 ≠ value line e.2).
  { rewrite !(items_with_spec line _ _ Hnd), Ha, Hb.
    rewrite (value_get _ _ _ Ha), (value_get _ _ _ Hb).
    destruct Hba, Hbb; subst; split; intros H;
      first [lia | destruct H as [[??]|[??]]; congruence | auto]. }
  repeat case_decide; simpl length; first [lia | tauto].
Qed.

Lemma cut_size_bounds (es : list edge) (x : Z → Z) :
  0 ≤ cut_size es x ≤ Z.of_nat (length es).
Proof. unfold cut_size. pose proof (length_filter (λ e : edge, x e.1 ≠ x e.2) es). lia. Qed.

(** Minus one times the float of a small negative integer, truncated. *)
Lemma int_of_negated_energy (c : Z) :
  0 ≤ c ≤ 6 → py_int (float_of_Z (-1) * float_of_Z (- c))%float = Some c.
Proof.
  intros Hc.
  assert (H : c = 0 ∨ c = 1 ∨ c = 2 ∨ c = 3 ∨ c = 4 ∨ c = 5 ∨ c = 6) by lia.
  repeat (destruct H as [-> | H]; [vm_compute; reflexivity|]).
  subst c. vm_compute. reflexivity.
Qed.

Lemma binary_value (line : sample) :
  (∀ n, n ∈ nodes G → ∃ b, PyDict.get line n = Some b ∧ (b = 0 ∨ b = 1)) →
  ∀ n, n ∈ nodes G → binary (value line n).
Proof. intros H n (b & Hb & Hbin)%H. rewrite (value_get _ _ _ Hb). exact Hbin. Qed.

(** One row: what is printed for a sample whose energy is its objective. *)
Lemma printed_cut (line : sample) (E : float) :
  NoDup (PyDict.keys line) →
  (∀ n, n ∈ nodes G → ∃ b, PyDict.get line n = Some b ∧ (b = 0 ∨ b = 1)) →
  E = float_of_Z (qubo_objective Q (value line)) →
  py_int (float_of_Z (-1) * E)%float
  = Some (edges_between (edges G) (items_with 0 line) (items_with 1 line)).
Proof.
  intros Hnd Hline ->.
  rewrite (objective_Q _ (binary_value line Hline)).
  rewrite edges_between_cut; [|exact Hnd|].
  - apply int_of_negated_energy.
    pose proof (cut_size_bounds (edges G) (value line)) as Hb.
    assert (HL : Z.of_nat (length (edges G)) = 6)
      by (rewrite G_edges; reflexivity).
    lia.
  - eapply Forall_impl; [apply edges_G_in_nodes|]. intros e [H1 H2]. auto.
Qed.

(** Whatever the response, a printed row carries the energy drawn for it
    and that energy negated and truncated. *)
Lemma print_rows_energy (lines : list sample) (data : list Sample) (rows : list Row) :
  print_rows lines data = Some rows →
  Forall2 (λ d r, row_E r = energy d ∧
                  py_int (float_of_Z (-1) * energy d)%float = Some (row_cut r))
          (take (length lines) data) rows.
Proof.
  revert data rows. induction lines as [|line lines IH]; intros data rows; simpl.
  - intros [= <-]. constructor.
  - destruct data as [|d data]; [discriminate|].
    destruct (py_int _) as [c|] eqn:Hc; simpl; [|discriminate].
    destruct (print_rows lines data) as [rows'|] eqn:Hrows; simpl; [|discriminate].
    intros [= <-]. constructor; [split; [reflexivity | exact Hc]|].
    apply IH, Hrows.
Qed.

(** C8: every printed row, whatever the response, carries as Cut Size
    [int(-1*E)] for the energy [E] drawn for it from the [energies]
    iterator; and when that energy is the QUBO objective of the row's
    sample, the printed cut size is the number of edges of [G] between the
    row's Set 0 and Set 1. *)
Theorem C8_printed_cut_size (lines : list sample) (data : list Sample) :
  (∀ rows, print_rows lines data = Some rows →
     Forall2 (λ d r, row_E r = energy d ∧
                     py_int (float_of_Z (-1) * energy d)%float = Some (row_cut r))
             (take (length lines) data) rows) ∧
  (Forall (λ line, NoDup (PyDict.keys line) ∧
                   ∀ n, n ∈ nodes G →
                        ∃ b, PyDict.get line n = Some b ∧ (b = 0 ∨ b = 1)) lines →
   Forall2 (λ line d, energy d = float_of_Z (qubo_objective Q (value line)))
           lines data →
   ∃ rows, print_rows lines data = Some rows ∧
     Forall2 (λ line r, row_S0 r = items_with 0 line ∧
                        row_S1 r = items_with 1 line) lines rows ∧
     Forall2 (λ d r, row_E r = energy d ∧
                     py_int (float_of_Z (-1) * energy d)%float = Some (row_cut r))
             data rows ∧
     Forall (λ r, row_cut r = edges_between (edges G) (row_S0 r) (row_S1 r)) rows).
Proof.
  split; [intros rows; apply print_rows_energy|].
  intros Hlines Hdata. induction Hdata as [|line d lines data Hd _ IH].
  - exists []. simpl. repeat split; constructor.
  - apply Forall_cons in Hlines as [[Hnd Hline] Hlines].
    destruct (IH Hlines) as (rows & Hrows & HS & HE & Hcut).
    pose proof (printed_cut line (energy d) Hnd Hline Hd) as Hint.
    eexists. simpl. rewrite Hint, Hrows. simpl. split; [reflexivity|].
    repeat split; constructor; simpl; auto.
Qed.

Lemma C8_witness :
  ∃ rows,
    print_rows [[(1, 1); (2, 0); (3, 0); (4, 1); (5, 1)]]
               [{| sample_of := [(1, 1); (2, 0); (3, 0); (4, 1); (5, 1)];
                   energy := float_of_Z (-5) |}] = Some rows ∧
    Forall (λ r, row_cut r = edges_between (edges G) (row_S0 r) (row_S1 r)) rows.
Proof.
  destruct (proj2 (C8_printed_cut_size
              [[(1, 1); (2, 0); (3, 0); (4, 1); (5, 1)]]
              [{| sample_of := [(1, 1); (2, 0); (3, 0); (4, 1); (5, 1)];
                  energy := float_of_Z (-5) |}]))
    as (rows & Hrows & _ & _ & Hcut).
  - constructor; [|constructor]. split; [compute_done|].
    intros n Hn. rewrite G_nodes in Hn.
    each_item Hn; eexists; (split; [reflexivity|]); lia.
  - constructor; [|constructor]. vm_compute. reflexivity.
  - exists rows. split; assumption.
Defined.

(** * Beyond the literal: the conversion loop on any edge list *)

Lemma iadd_insert (M : gmap (Z * Z) Z) (k : Z * Z) (d : Z) :
  iadd M k d = <[k := coefficient M k + d]> M.
Proof.
  unfold iadd, getitem, coefficient. destruct (M !! k) as [q|]; simpl.
  - reflexivity.
  - apply insert_insert_eq.
Qed.

Lemma coefficient_iadd (M : gmap (Z * Z) Z) (k k' : Z * Z) (d : Z) :
  coefficient (iadd M k d) k'
  = coefficient M k' + (if decide (k = k') then d else 0).
Proof.
  rewrite iadd_insert. unfold coefficient at 1.
  destruct (decide (k = k')) as [<- | Hne].
  - rewrite lookup_insert_eq. reflexivity.
  - rewrite lookup_insert_ne by exact Hne. unfold coefficient. lia.
Qed.

Lemma coefficient_loop_body (M : gmap (Z * Z) Z) (e : edge) (k : Z * Z) :
  coefficient (loop_body M e) k
  = coefficient M k
    + (if decide ((e.1, e.1) = k) then -1 else 0)
    + (if decide ((e.2, e.2) = k) then -1 else 0)
    + (if decide (e = k) then 2 else 0).
Proof.
  destruct e as [u v]. unfold loop_body, run_updates, body_updates. simpl.
  rewrite !coefficient_iadd. reflexivity.
Qed.

Lemma dom_iadd (M : gmap (Z * Z) Z) (k : Z * Z) (d : Z) :
  dom (iadd M k d) = {[k]} ∪ dom M.
Proof. rewrite iadd_insert. apply dom_insert_L. Qed.

Lemma iadd_comm (M : gmap (Z * Z) Z) (k1 k2 : Z * Z) (d1 d2 : Z) :
  iadd (iadd M k1 d1) k2 d2 = iadd (iadd M k2 d2) k1 d1.
Proof.
  apply map_eq. intros k.
  assert (H : ∀ N : gmap (Z * Z) Z, ∀ N', coefficient N k = coefficient N' k →
              (k ∈ dom N ↔ k ∈ dom N') → N !! k = N' !! k).
  { intros N N' Hc Hd. rewrite !elem_of_dom in Hd. unfold coefficient in Hc.
    destruct (N !! k) as [a|] eqn:Ha, (N' !! k) as [b|] eqn:Hb; simpl in Hc.
    - congruence.
    - destruct Hd as [Hd _]. destruct Hd; [eauto | discriminate].
    - destruct Hd as [_ Hd]. destruct Hd; [eauto | discriminate].
    - reflexivity. }
  apply H.
  - rewrite !coefficient_iadd. lia.
  - rewrite !dom_iadd, !elem_of_union. tauto.
Qed.

Lemma coefficient_foldl_off (es : list edge) (i j : Z) (M : gmap (Z * Z) Z) :
  i ≠ j →
  coefficient (foldl loop_body M es) (i, j)
  = coefficient M (i, j)
    + 2 * Z.of_nat (length (filter (λ e : edge, e = (i, j)) es)).
Proof.
  intros Hij. revert M. induction es as [|[u v] es IH]; intros M; simpl foldl.
  - simpl. lia.
  - rewrite IH, coefficient_loop_body, filter_cons. simpl fst; simpl snd.
    repeat case_decide; simplify_eq; simpl length; lia.
Qed.

Lemma coefficient_foldl_diag (es : list edge) (i : Z) (M : gmap (Z * Z) Z) :
  coefficient (foldl loop_body M es) (i, i)
  = coefficient M (i, i)
    - Z.of_nat (length (filter (λ e : edge, e.1 = i ∧ e.2 ≠ i) es))
    - Z.of_nat (length (filter (λ e : edge, e.2 = i ∧ e.1 ≠ i) es)).
Proof.
  revert M. induction es as [|[u v] es IH]; intros M; simpl foldl.
  - simpl. lia.
  - rewrite IH, coefficient_loop_body, !filter_cons. simpl fst; simpl snd.
    destruct (decide (u = i)) as [-> | Hu], (decide (v = i)) as [-> | Hv];
      repeat case_decide; simplify_eq; simpl length; try lia;
      exfalso; tauto.
Qed.

(** X1: with an edge list of any graph, the loop leaves under an
    off-diagonal key [(i, j)] twice the number of times the edge [(i, j)]
    is listed, and under a diagonal key [(i, i)] minus the number of
    listed edge ends at [i], a self-loop counting for nothing. *)
Theorem X1_coefficients_of_any_graph (es : list edge) :
  (∀ i j, i ≠ j →
     coefficient (build_Q es) (i, j)
     = 2 * Z.of_nat (length (filter (λ e : edge, e = (i, j)) es))) ∧
  (∀ i,
     coefficient (build_Q es) (i, i)
     = - Z.of_nat (length (filter (λ e : edge, e.1 = i ∧ e.2 ≠ i) es))
       - Z.of_nat (length (filter (λ e : edge, e.2 = i ∧ e.1 ≠ i) es))).
Proof.
  unfold build_Q. split.
  - intros i j Hij. rewrite (coefficient_foldl_off es i j ∅ Hij).
    unfold coefficient. rewrite lookup_empty. simpl. lia.
  - intros i. rewrite coefficient_foldl_diag.
    unfold coefficient. rewrite lookup_empty. simpl. lia.
Qed.

Lemma dom_loop_body (M : gmap (Z * Z) Z) (e : edge) :
  dom (loop_body M e) = {[e; (e.2, e.2); (e.1, e.1)]} ∪ dom M.
Proof.
  destruct e as [u v]. unfold loop_body, run_updates, body_updates. simpl.
  rewrite !dom_iadd. apply set_eq. intros k.
  rewrite !elem_of_union, !elem_of_singleton. tauto.
Qed.

Lemma dom_foldl_loop_body (es : list edge) (M : gmap (Z * Z) Z) (k : Z * Z) :
  k ∈ dom (foldl loop_body M es) ↔
  k ∈ dom M ∨ ∃ e, e ∈ es ∧ (k = (e.1, e.1) ∨ k = (e.2, e.2) ∨ k = e).
Proof.
  revert M. induction es as [|e es IH]; intros M; simpl foldl.
  - split; [auto | intros [H | (e & []%elem_of_nil & _)]; exact H].
  - rewrite IH, dom_loop_body, !elem_of_union, !elem_of_singleton. split.
    + intros [[Hk | H] | (e' & He' & H)].
      * right. exists e. rewrite elem_of_cons. tauto.
      * left. exact H.
      * right. exists e'. rewrite elem_of_cons. tauto.
    + intros [H | (e' & He' & H)]; [auto|].
      apply elem_of_cons in He' as [-> | He'].
      * left. left. tauto.
      * right. eauto.
Qed.

(** X2: the keys the loop creates for any edge list are the edge as it is
    listed and the diagonal key of each of its two ends, and nothing else;
    a graph without edges gives the empty QUBO. *)
Theorem X2_keys_of_any_graph (es : list edge) (k : Z * Z) :
  (k ∈ dom (build_Q es) ↔
   ∃ e, e ∈ es ∧ (k = (e.1, e.1) ∨ k = (e.2, e.2) ∨ k = e)) ∧
  build_Q [] = ∅.
Proof.
  split; [|reflexivity].
  unfold build_Q. rewrite dom_foldl_loop_body, dom_empty_L.
  split; [intros [[]%elem_of_empty | H]; exact H | auto].
Qed.

Lemma run_updates_permutation (l l' : list ((Z * Z) * Z)) :
  l ≡ₚ l' → ∀ M, run_updates M l = run_updates M l'.
Proof.
  unfold run_updates.
  induction 1 as [|up l l' _ IH|up1 up2 l|l1 l2 l3 _ IH1 _ IH2]; intros M; simpl.
  - reflexivity.
  - apply IH.
  - rewrite iadd_comm. reflexivity.
  - rewrite IH1. apply IH2.
Qed.

(** X3: the QUBO does not depend on the order in which the edges are
    visited: edge lists that are permutations of one another give the
    same mapping. *)
Theorem X3_edge_order_irrelevant (es es' : list edge) :
  es ≡ₚ es' → build_Q es = build_Q es'.
Proof.
  intros Hp. unfold build_Q. rewrite !loop_as_updates.
  apply run_updates_permutation.
  induction Hp as [|e l l' _ IH|e1 e2 l|l1 l2 l3 _ IH1 _ IH2]; simpl.
  - reflexivity.
  - rewrite IH. reflexivity.
  - rewrite !app_assoc. f_equiv. apply Permutation_app_comm.
  - rewrite IH1. exact IH2.
Qed.

Lemma X3_witness : build_Q edge_literal = build_Q (reverse edge_literal).
Proof. apply (X3_edge_order_irrelevant edge_literal). symmetry. apply reverse_Permutation. Defined.

Lemma objective_foldl_squares (x : Z → Z) (es : list edge) (M : gmap (Z * Z) Z) :
  qubo_objective (foldl loop_body M es) x
  = qubo_objective M x - squared_differences es x.
Proof.
  revert M. induction es as [|e es IH]; intros M.
  - unfold squared_differences. simpl. lia.
  - simpl foldl. rewrite IH, objective_loop_body.
    unfold squared_differences. simpl foldr. lia.
Qed.

Section Energy.
Variable x : Z → Z.

Lemma energy_insert_fresh (M : gmap (Z * Z) Z) k q :
  M !! k = None →
  sampler_energy (<[k := q]> M) x
  = sampler_energy M x
    + q * (if decide (k.1 = k.2) then x k.1 else x k.1 * x k.2).
Proof.
  intros Hk. unfold sampler_energy.
  rewrite map_fold_insert_L; [reflexivity | | exact Hk].
  intros; lia.
Qed.

Lemma energy_insert (M : gmap (Z * Z) Z) k q :
  sampler_energy (<[k := q]> M) x
  = sampler_energy M x
    + (q - coefficient M k)
      * (if decide (k.1 = k.2) then x k.1 else x k.1 * x k.2).
Proof.
  unfold coefficient. destruct (M !! k) as [q0|] eqn:Hk; simpl.
  - rewrite <- (insert_delete_eq M k q).
    rewrite <- (insert_id M k q0 Hk) at 2.
    rewrite <- (insert_delete_eq M k q0).
    rewrite !energy_insert_fresh by apply lookup_delete_eq. lia.
  - rewrite energy_insert_fresh by exact Hk. lia.
Qed.

Lemma energy_iadd (M : gmap (Z * Z) Z) k d :
  sampler_energy (iadd M k d) x
  = sampler_energy M x
    + d * (if decide (k.1 = k.2) then x k.1 else x k.1 * x k.2).
Proof. rewrite iadd_insert, energy_insert. lia. Qed.

Lemma energy_loop_body (M : gmap (Z * Z) Z) (e : edge) :
  binary (x e.1) → binary (x e.2) →
  sampler_energy (loop_body M e) x
  = sampler_energy M x - (x e.1 - x e.2) * (x e.1 - x e.2).
Proof.
  destruct e as [u v]. unfold loop_body, run_updates, body_updates.
  cbn [foldl fst snd]. intros Hu Hv. rewrite !energy_iadd. cbn [fst snd].
  repeat case_decide; try congruence; subst;
    destruct Hu as [Hu | Hu], Hv as [Hv | Hv]; rewrite ?Hu, ?Hv; lia.
Qed.

Lemma energy_foldl (es : list edge) (M : gmap (Z * Z) Z) :
  Forall (λ e : edge, binary (x e.1) ∧ binary (x e.2)) es →
  sampler_energy (foldl loop_body M es) x = sampler_energy M x - cut_size es x.
Proof.
  intros Hes. revert M. induction Hes as [|e es [H1 H2] _ IH]; intros M.
  - unfold cut_size. simpl. lia.
  - simpl foldl.
    rewrite IH, energy_loop_body, (cut_size_cons x) by assumption. lia.
Qed.

Lemma energy_build_Q (es : list edge) :
  Forall (λ e : edge, binary (x e.1) ∧ binary (x e.2)) es →
  sampler_energy (build_Q es) x = - cut_size es x.
Proof.
  intros Hes. unfold build_Q. rewrite energy_foldl by exact Hes.
  unfold sampler_energy. rewrite map_fold_empty. lia.
Qed.
End Energy.

Lemma cut_size_constant (es : list edge) (c : Z) : cut_size es (λ _, c) = 0.
Proof.
  unfold cut_size. induction es as [|e es IH]; [reflexivity|].
  rewrite filter_cons, decide_False by (intros H; apply H; reflexivity).
  exact IH.
Qed.

(** Outside 0 and 1 the two readings of the QUBO part: on [G], for the
    constant 2 and for the spins of {2, 3} against {1, 4, 5}. *)
Example readings_part_outside_binary :
  sampler_energy Q (λ _, 2) = 24 ∧ qubo_objective Q (λ _, 2) = 0 ∧
  sampler_energy Q spin_23 = -10 ∧ qubo_objective Q spin_23 = -20.
Proof. vm_compute. repeat split. Qed.

(** X4: on assignments of 0 and 1 the objective is the energy the sampler
    reports, which reads a diagonal entry as a linear bias: for the edge
    list of any graph and any assignment of 0 or 1 to the ends of its
    edges, the energy read that way equals the objective, is minus the
    number of cut edges and so never positive; and with every node on the
    same side, all 0 or all 1, it is 0. *)
Theorem X4_energy_read_by_sampler (es : list edge) (x : Z → Z) :
  Forall (λ e : edge, (x e.1 = 0 ∨ x e.1 = 1) ∧ (x e.2 = 0 ∨ x e.2 = 1)) es →
  sampler_energy (build_Q es) x = qubo_objective (build_Q es) x ∧
  sampler_energy (build_Q es) x = - cut_size es x ∧
  - Z.of_nat (length es) ≤ sampler_energy (build_Q es) x ≤ 0 ∧
  (∀ c, c = 0 ∨ c = 1 → sampler_energy (build_Q es) (λ _, c) = 0).
Proof.
  intros Hx.
  rewrite (energy_build_Q x es Hx), (objective_build_Q x es Hx).
  pose proof (cut_size_bounds es x).
  split; [reflexivity|]. split; [reflexivity|]. split; [lia|].
  intros c Hc. rewrite energy_build_Q, cut_size_constant; [reflexivity|].
  apply Forall_forall. intros e _. split; exact Hc.
Qed.

Lemma X4_witness :
  sampler_energy (build_Q [(7, 8); (8, 9); (9, 7)]) (λ n, if decide (n = 7) then 1 else 0)
  = qubo_objective (build_Q [(7, 8); (8, 9); (9, 7)])
      (λ n, if decide (n = 7) then 1 else 0) ∧
  sampler_energy (build_Q [(7, 8); (8, 9); (9, 7)]) (λ n, if decide (n = 7) then 1 else 0)
  = - cut_size [(7, 8); (8, 9); (9, 7)] (λ n, if decide (n = 7) then 1 else 0).
Proof.
  destruct (X4_energy_read_by_sampler [(7, 8); (8, 9); (9, 7)]
              (λ n, if decide (n = 7) then 1 else 0)) as (H1 & H2 & _).
  - repeat constructor; simpl; case_decide; auto.
  - split; assumption.
Defined.

(** X5: for the edge list of any graph, not only the literal, and any
    assignment of 0 or 1 to the ends of its edges, the objective is minus
    the number of cut edges, hence between minus the number of edges
    and 0. *)
Theorem X5_max_cut_of_any_graph (es : list edge) (x : Z → Z) :
  Forall (λ e : edge, (x e.1 = 0 ∨ x e.1 = 1) ∧ (x e.2 = 0 ∨ x e.2 = 1)) es →
  qubo_objective (build_Q es) x = - cut_size es x ∧
  - Z.of_nat (length es) ≤ qubo_objective (build_Q es) x ≤ 0.
Proof.
  intros Hx. rewrite (objective_build_Q x es Hx).
  pose proof (cut_size_bounds es x). split; lia.
Qed.

Lemma X5_witness :
  qubo_objective (build_Q [(7, 8); (8, 9); (9, 7)]) (λ n, if decide (n = 7) then 1 else 0)
  = - cut_size [(7, 8); (8, 9); (9, 7)] (λ n, if decide (n = 7) then 1 else 0) ∧
  - Z.of_nat (length [(7, 8); (8, 9); (9, 7)])
  ≤ qubo_objective (build_Q [(7, 8); (8, 9); (9, 7)]) (λ n, if decide (n = 7) then 1 else 0)
  ≤ 0.
Proof.
  apply (X5_max_cut_of_any_graph [(7, 8); (8, 9); (9, 7)]).
  repeat constructor; simpl; case_decide; auto.
Defined.

(** X6: exchanging the two sides of a partition changes neither the cut
    nor the energy: the colour given to each subset is arbitrary. *)
Theorem X6_sides_exchangeable (es : list edge) (x : Z → Z) :
  cut_size es (flip x) = cut_size es x ∧
  qubo_objective (build_Q es) (flip x) = qubo_objective (build_Q es) x.
Proof.
  split.
  - unfold cut_size. f_equal. f_equal. apply list_filter_iff.
    intros e. unfold flip. lia.
  - unfold build_Q. rewrite !objective_foldl_squares. f_equal.
    induction es as [|e es IH]; [reflexivity|].
    change ((flip x e.1 - flip x e.2) * (flip x e.1 - flip x e.2)
            + squared_differences es (flip x)
            = (x e.1 - x e.2) * (x e.1 - x e.2) + squared_differences es x).
    rewrite IH. unfold flip. lia.
Qed.

(** * The results table on any response *)

Lemma items_with_length (line : sample) :
  (length (items_with 0 line) + length (items_with 1 line) ≤ length line)%nat ∧
  ((length (items_with 0 line) + length (items_with 1 line) = length line)%nat →
   Forall (λ kv : node * Z, kv.2 = 0 ∨ kv.2 = 1) line).
Proof.
  unfold items_with. induction line as [|[k v] line [IHle IHeq]].
  - split; [reflexivity | constructor].
  - rewrite !filter_cons. cbn [snd].
    destruct (decide (v = 0)) as [E0 | N0], (decide (v = 1)) as [E1 | N1];
      cbn [map length]; (split; [lia|]); intros Heq;
      first [ exfalso; lia
            | constructor; [simpl; auto | apply IHeq; lia] ].
Qed.

Lemma items_with_binary (line : sample) :
  Forall (λ kv : node * Z, kv.2 = 0 ∨ kv.2 = 1) line →
  items_with 0 line ++ items_with 1 line ≡ₚ PyDict.keys line.
Proof.
  unfold items_with, PyDict.keys. induction 1 as [|[k v] line Hv _ IH].
  - reflexivity.
  - rewrite !filter_cons. cbn [snd] in *. cbn [map fst].
    destruct Hv as [-> | ->]; repeat case_decide; try lia.
    + cbn [map fst app]. constructor. exact IH.
    + cbn [map fst]. rewrite <- Permutation_middle. constructor. exact IH.
Qed.

(** X7: in a row of the table, for a sample with its variables listed
    once, Set 0 holds exactly the variables with value 0 and Set 1 those
    with value 1, and no variable is in both; the two sets together are
    all the variables exactly when every value is 0 or 1: a variable with
    another value (a spin -1, say) is printed in neither set. *)
Theorem X7_table_sets (line : sample) :
  (NoDup (PyDict.keys line) →
   ∀ k, (k ∈ items_with 0 line ↔ PyDict.get line k = Some 0) ∧
        (k ∈ items_with 1 line ↔ PyDict.get line k = Some 1) ∧
        ¬ (k ∈ items_with 0 line ∧ k ∈ items_with 1 line)) ∧
  (items_with 0 line ++ items_with 1 line ≡ₚ PyDict.keys line ↔
   Forall (λ kv : node * Z, kv.2 = 0 ∨ kv.2 = 1) line).
Proof.
  split.
  - intros Hnd k. rewrite !(items_with_spec line _ k Hnd).
    split; [reflexivity|]. split; [reflexivity|]. intros [H0 H1]. congruence.
  - split; [|apply items_with_binary].
    intros Hp. apply items_with_length.
    apply Permutation_length in Hp.
    rewrite length_app in Hp. unfold PyDict.keys in Hp.
    rewrite length_map in Hp. exact Hp.
Qed.

Lemma print_rows_some (lines : list sample) (data : list Sample) :
  is_Some (print_rows lines data) ↔
  (length lines ≤ length data)%nat ∧
  Forall (λ d, is_Some (py_int (float_of_Z (-1) * energy d)%float))
         (take (length lines) data).
Proof.
  revert data. induction lines as [|line lines IH]; intros data; simpl.
  - split; [intros _; split; [lia | constructor] | intros _; eauto].
  - destruct data as [|d data]; simpl.
    + split; [intros [? [=]] | intros [? _]; lia].
    + rewrite Forall_cons. specialize (IH data).
      destruct (py_int _) as [c|]; simpl.
      * destruct (print_rows lines data) as [rows|]; simpl.
        -- split; [intros _ | eauto].
           destruct IH as [IH _]. destruct IH as [? ?]; [eauto|].
           repeat split; [lia | eauto | assumption].
        -- split; [intros [? [=]]|]. intros (Hle & _ & Hall).
           destruct IH as [_ IH]. destruct IH as [? [=]]. split; [lia | exact Hall].
      * split; [intros [? [=]] | intros (_ & [? [=]] & _)].
Qed.

Lemma print_rows_sets (lines : list sample) (data : list Sample) (rows : list Row) :
  print_rows lines data = Some rows →
  Forall2 (λ line r, row_S0 r = items_with 0 line ∧
                     row_S1 r = items_with 1 line) lines rows.
Proof.
  revert data rows. induction lines as [|line lines IH]; intros data rows; simpl.
  - intros [= <-]. constructor.
  - destruct data as [|d data]; [discriminate|].
    destruct (py_int _) as [c|]; simpl; [|discriminate].
    destruct (print_rows lines data) as [rows'|] eqn:Hrows; simpl; [|discriminate].
    intros [= <-]. constructor; [split; reflexivity|]. eapply IH, Hrows.
Qed.

(** X8: the printing loop raises when the response has fewer energies
    than samples ([next] on the exhausted iterator), or when [int] cannot
    convert a negated energy, as for nan and the infinities; otherwise it
    prints exactly one row per sample, in order, each with the sets of its
    own sample, and energies beyond the last sample are never read. *)
Theorem X8_print_loop_errors (lines : list sample) (data : list Sample) :
  (is_Some (print_rows lines data) ↔
   (length lines ≤ length data)%nat ∧
   Forall (λ d, is_Some (py_int (float_of_Z (-1) * energy d)%float))
          (take (length lines) data)) ∧
  (Exists (λ d, energy d = nan ∨ energy d = infinity ∨ energy d = neg_infinity)
          (take (length lines) data) →
   print_rows lines data = None) ∧
  (∀ rows, print_rows lines data = Some rows →
     length rows = length lines ∧
     Forall2 (λ line r, row_S0 r = items_with 0 line ∧
                        row_S1 r = items_with 1 line) lines rows) ∧
  (∀ surplus, (length lines ≤ length data)%nat →
     print_rows lines (data ++ surplus) = print_rows lines data).
Proof.
  split; [apply print_rows_some|]. split; [|split].
  - intros Hex. apply eq_None_not_Some. intros [_ Hall]%print_rows_some.
    apply Exists_exists in Hex as (d & Hd & Hbad).
    rewrite Forall_forall in Hall. specialize (Hall d Hd).
    simpl in Hall.
    destruct Hbad as [Hb | [Hb | Hb]]; rewrite Hb in Hall;
      vm_compute in Hall; destruct Hall as [? [=]].
  - intros rows Hrows. pose proof (print_rows_sets _ _ _ Hrows) as HS.
    split; [symmetry; eapply Forall2_length, HS | exact HS].
  - intros surplus. revert data.
    induction lines as [|line lines IH]; intros data Hle; simpl; [reflexivity|].
    destruct data as [|d data]; simpl in *; [lia|].
    rewrite IH by lia. reflexivity.
Qed.

(** * The plot of the best sample, for any graph and any sample *)

Lemma comprehension_none {A} (cond : A → option bool) (l : list A) :
  Exists (λ a, cond a = None) l → comprehension cond l = None.
Proof.
  induction 1 as [a l Ha | a l _ IH]; simpl.
  - rewrite Ha. reflexivity.
  - destruct (cond a); simpl; [rewrite IH|]; reflexivity.
Qed.

Lemma get_is_Some_value (lut : sample) (n : node) :
  is_Some (PyDict.get lut n) → PyDict.get lut n = Some (value lut n).
Proof. intros [v Hv]. rewrite (value_get _ _ _ Hv). exact Hv. Qed.

Lemma interpret_defined (g : Graph) (lut : sample) :
  (∀ n, n ∈ nodes g → is_Some (PyDict.get lut n)) →
  Forall (λ e : edge, e.1 ∈ nodes g ∧ e.2 ∈ nodes g) (edges g) →
  interpret g lut
  = Some {| S0 := filter (λ n, negb (truthy (value lut n)) = true) (nodes g);
            S1 := filter (λ n, truthy (value lut n) = true) (nodes g);
            cut_edges :=
              filter (λ e : edge, negb (value lut e.1 =? value lut e.2) = true)
                     (edges g);
            uncut_edges :=
              filter (λ e : edge, (value lut e.1 =? value lut e.2) = true)
                     (edges g) |}.
Proof.
  intros Hn He.
  assert (He' : Forall (λ e : edge,
              PyDict.get lut e.1 = Some (value lut e.1) ∧
              PyDict.get lut e.2 = Some (value lut e.2)) (edges g)).
  { eapply Forall_impl; [exact He|]. intros e [H1 H2].
    split; apply get_is_Some_value, Hn; assumption. }
  unfold interpret.
  rewrite (comprehension_filter
             (λ n, v ← PyDict.get lut n; Some (negb (truthy v)))
             (λ n, negb (truthy (value lut n)))); cycle 1.
  { apply Forall_forall. intros n Hin.
    rewrite (get_is_Some_value _ _ (Hn n Hin)). reflexivity. }
  rewrite (comprehension_filter
             (λ n, v ← PyDict.get lut n; Some (truthy v))
             (λ n, truthy (value lut n))); cycle 1.
  { apply Forall_forall. intros n Hin.
    rewrite (get_is_Some_value _ _ (Hn n Hin)). reflexivity. }
  rewrite (comprehension_filter
             (λ e : edge, a ← PyDict.get lut e.1; b ← PyDict.get lut e.2;
                          Some (negb (a =? b)))
             (λ e : edge, negb (value lut e.1 =? value lut e.2))); cycle 1.
  { eapply Forall_impl; [exact He'|]. intros e [-> ->]. reflexivity. }
  rewrite (comprehension_filter
             (λ e : edge, a ← PyDict.get lut e.1; b ← PyDict.get lut e.2;
                          Some (a =? b))
             (λ e : edge, value lut e.1 =? value lut e.2)); cycle 1.
  { eapply Forall_impl; [exact He'|]. intros e [-> ->]. reflexivity. }
  reflexivity.
Qed.

(** X9: for any graph and any sample that has a value for every node,
    whatever the values (spins -1 and 1 as well as 0 and 1), each node is
    drawn in exactly one colour and each edge in exactly one style: [S0]
    holds the nodes with value 0, [S1] those with any other value, and an
    edge is cut exactly when its ends have different values. *)
Theorem X9_plot_of_any_sample (g : Graph) (lut : sample) :
  (∀ n, n ∈ nodes g → is_Some (PyDict.get lut n)) →
  Forall (λ e : edge, e.1 ∈ nodes g ∧ e.2 ∈ nodes g) (edges g) →
  ∃ r, interpret g lut = Some r ∧
       S0 r = filter (λ n, value lut n = 0) (nodes g) ∧
       S1 r = filter (λ n, value lut n ≠ 0) (nodes g) ∧
       cut_edges r = filter (λ e : edge, value lut e.1 ≠ value lut e.2) (edges g) ∧
       uncut_edges r = filter (λ e : edge, value lut e.1 = value lut e.2) (edges g) ∧
       S0 r ++ S1 r ≡ₚ nodes g ∧ (∀ n, n ∈ S0 r → n ∉ S1 r) ∧
       cut_edges r ++ uncut_edges r ≡ₚ edges g ∧
       (∀ e, e ∈ cut_edges r → e ∉ uncut_edges r).
Proof.
  intros Hn He. eexists. split; [apply interpret_defined; assumption|]. simpl.
  destruct (filter_complement (λ n, negb (truthy (value lut n)))
              (λ n, truthy (value lut n)) (nodes g)) as [Hp Hd].
  { intros n. symmetry. apply negb_involutive. }
  destruct (filter_complement
              (λ e : edge, negb (value lut e.1 =? value lut e.2))
              (λ e : edge, value lut e.1 =? value lut e.2) (edges g)) as [Hpe Hde].
  { intros e. symmetry. apply negb_involutive. }
  split; [|split; [|split; [|split]]]; try (repeat split; assumption).
  - apply list_filter_iff. intros n. unfold truthy. rewrite negb_involutive. lia.
  - apply list_filter_iff. intros n. unfold truthy. rewrite negb_true_iff. lia.
  - apply list_filter_iff. intros e. rewrite negb_true_iff. lia.
  - apply list_filter_iff. intros e. lia.
Qed.

Lemma X9_witness :
  ∃ r, interpret G [(1, 1); (2, -1); (3, -1); (4, 1); (5, 1)] = Some r ∧
       S0 r = [] ∧ S1 r = [1; 2; 3; 4; 5] ∧
       cut_edges r ++ uncut_edges r ≡ₚ edges G.
Proof.
  destruct (X9_plot_of_any_sample G [(1, 1); (2, -1); (3, -1); (4, 1); (5, 1)])
    as (r & Hr & H0 & H1 & _ & _ & _ & _ & Hp & _).
  - intros n Hn. rewrite G_nodes in Hn. each_item Hn; eexists; reflexivity.
  - exact edges_G_in_nodes.
  - exists r. rewrite H0, H1. repeat split; [exact Hr | exact Hp].
Defined.

(** X10: interpreting the best sample raises (a [KeyError]) exactly when
    the sample has no value for some node of the graph; extra variables in
    the sample do no harm. *)
Theorem X10_plot_key_error (g : Graph) (lut : sample) :
  Forall (λ e : edge, e.1 ∈ nodes g ∧ e.2 ∈ nodes g) (edges g) →
  interpret g lut = None ↔ Exists (λ n, PyDict.get lut n = None) (nodes g).
Proof.
  intros He. split.
  - intros Hnone.
    destruct (decide (Exists (λ n, PyDict.get lut n = None) (nodes g)))
      as [Hex | Hall]; [exact Hex|].
    rewrite interpret_defined in Hnone; [discriminate| |exact He].
    intros n Hn. destruct (PyDict.get lut n) as [v|] eqn:Hv; [eauto|].
    destruct Hall. apply Exists_exists. eauto.
  - intros Hex. unfold interpret.
    rewrite (comprehension_none
               (λ n, v ← PyDict.get lut n; Some (negb (truthy v)))); [reflexivity|].
    eapply Exists_impl; [exact Hex|]. intros n ->. reflexivity.
Qed.

Lemma X10_witness :
  interpret G [(1, 1); (2, 0); (3, 0); (4, 1)] = None ↔
  Exists (λ n, PyDict.get [(1, 1); (2, 0); (3, 0); (4, 1)] n = None) (nodes G).
Proof. apply (X10_plot_key_error G). exact edges_G_in_nodes. Defined.

Lemma keys_get (line : sample) (n : node) :
  n ∈ PyDict.keys line ↔ is_Some (PyDict.get line n).
Proof.
  unfold PyDict.keys. induction line as [|[k v] line IH]; simpl.
  - split; [intros []%elem_of_nil | intros [? [=]]].
  - rewrite elem_of_cons. case_decide; [subst; split; eauto|].
    rewrite IH. split; [intros [? | ?]; congruence || assumption | auto].
Qed.

Lemma items_with_NoDup (c : Z) (line : sample) :
  NoDup (PyDict.keys line) → NoDup (items_with c line).
Proof.
  unfold items_with, PyDict.keys. induction line as [|[k v] line IH]; intros Hnd.
  - constructor.
  - cbn [map fst] in Hnd. apply NoDup_cons in Hnd as [Hk Hnd].
    rewrite filter_cons. case_decide; cbn [map fst]; [|auto].
    apply NoDup_cons. split; [|auto].
    intros Hin. apply Hk. apply list_elem_of_In, in_map_iff in Hin as ([k' v'] & Hk' & Hin).
    simpl in Hk'. subst k'. apply list_elem_of_In, list_elem_of_filter in Hin as [_ Hin].
    apply list_elem_of_In, in_map_iff. exists (k, v'). split; [reflexivity|].
    apply list_elem_of_In, Hin.
Qed.

Lemma binary_values (line : sample) (n : node) :
  Forall (λ kv : node * Z, kv.2 = 0 ∨ kv.2 = 1) line →
  n ∈ PyDict.keys line →
  ∃ b, PyDict.get line n = Some b ∧ binary b.
Proof.
  intros Hb. induction Hb as [|[k v] line Hv _ IH]; simpl.
  - intros []%elem_of_nil.
  - intros Hin. case_decide; [eauto|].
    apply IH. apply elem_of_cons in Hin as [? | ?]; [congruence | assumption].
Qed.

(** X11: when the best sample has exactly the nodes of the graph as its
    variables, each once and each with value 0 or 1, the plot and the
    table agree: the red nodes are the Set 0 of the table, the cyan nodes
    its Set 1 (up to the order of listing), and the number of edges drawn
    as cut is the number of edges between Set 0 and Set 1. *)
Theorem X11_plot_agrees_with_table (g : Graph) (lut : sample) :
  NoDup (PyDict.keys lut) →
  PyDict.keys lut ≡ₚ nodes g →
  Forall (λ kv : node * Z, kv.2 = 0 ∨ kv.2 = 1) lut →
  Forall (λ e : edge, e.1 ∈ nodes g ∧ e.2 ∈ nodes g) (edges g) →
  ∃ r, interpret g lut = Some r ∧
       S0 r ≡ₚ items_with 0 lut ∧ S1 r ≡ₚ items_with 1 lut ∧
       Z.of_nat (length (cut_edges r))
       = edges_between (edges g) (items_with 0 lut) (items_with 1 lut).
Proof.
  intros Hnd Hkeys Hbin He.
  assert (Hdef : ∀ n, n ∈ nodes g → ∃ b, PyDict.get lut n = Some b ∧ binary b).
  { intros n Hn. apply binary_values; [exact Hbin|]. rewrite Hkeys. exact Hn. }
  assert (HndG : NoDup (nodes g)) by (rewrite <- Hkeys; exact Hnd).
  eexists. split.
  { apply interpret_defined; [|exact He].
    intros n (b & Hb & _)%Hdef. eauto. }
  simpl. split; [|split].
  - apply NoDup_Permutation;
      [apply NoDup_filter, HndG | apply items_with_NoDup, Hnd|].
    intros n. rewrite list_elem_of_filter, (items_with_spec _ _ _ Hnd). split.
    + intros [Hv (b & Hb & _)%Hdef]. rewrite (value_get _ _ _ Hb) in Hv.
      rewrite Hb. f_equal. unfold truthy in Hv.
      rewrite negb_involutive in Hv. lia.
    + intros Hget. rewrite (value_get _ _ _ Hget). split; [reflexivity|].
      rewrite <- Hkeys. apply keys_get. eauto.
  - apply NoDup_Permutation;
      [apply NoDup_filter, HndG | apply items_with_NoDup, Hnd|].
    intros n. rewrite list_elem_of_filter, (items_with_spec _ _ _ Hnd). split.
    + intros [Hv (b & Hb & [-> | ->])%Hdef]; rewrite (value_get _ _ _ Hb) in Hv;
        [discriminate | exact Hb].
    + intros Hget. rewrite (value_get _ _ _ Hget). split; [reflexivity|].
      rewrite <- Hkeys. apply keys_get. eauto.
  - rewrite edges_between_cut; [|exact Hnd|].
    + unfold cut_size. do 2 f_equal. apply list_filter_iff.
      intros e. rewrite negb_true_iff. lia.
    + eapply Forall_impl; [exact He|]. intros e [H1 H2]. auto.
Qed.

Lemma X11_witness :
  ∃ r, interpret G [(5, 1); (4, 1); (3, 0); (2, 0); (1, 1)] = Some r ∧
       S0 r ≡ₚ items_with 0 [(5, 1); (4, 1); (3, 0); (2, 0); (1, 1)] ∧
       S1 r ≡ₚ items_with 1 [(5, 1); (4, 1); (3, 0); (2, 0); (1, 1)] ∧
       Z.of_nat (length (cut_edges r))
       = edges_between (edges G)
           (items_with 0 [(5, 1); (4, 1); (3, 0); (2, 0); (1, 1)])
           (items_with 1 [(5, 1); (4, 1); (3, 0); (2, 0); (1, 1)]).
Proof.
  apply (X11_plot_agrees_with_table G [(5, 1); (4, 1); (3, 0); (2, 0); (1, 1)]).
  - compute_done.
  - rewrite G_nodes. simpl. apply (reverse_Permutation [1; 2; 3; 4; 5]).
  - repeat constructor; simpl; lia.
  - exact edges_G_in_nodes.
Defined.

(** X12: the table and the plot treat a value other than 0 and 1
    differently: a node whose value is, say, the spin -1 is listed in
    neither set of the table, yet the plot draws it with the nodes of
    [S1], since it tests the truth of the value. *)
Theorem X12_other_values (g : Graph) (lut : sample) (n : node) (v : Z) :
  (∀ m, m ∈ nodes g → is_Some (PyDict.get lut m)) →
  Forall (λ e : edge, e.1 ∈ nodes g ∧ e.2 ∈ nodes g) (edges g) →
  NoDup (PyDict.keys lut) →
  n ∈ nodes g → PyDict.get lut n = Some v → v ≠ 0 → v ≠ 1 →
  (n ∉ items_with 0 lut) ∧ (n ∉ items_with 1 lut) ∧
  ∃ r, interpret g lut = Some r ∧ n ∈ S1 r ∧ (n ∉ S0 r).
Proof.
  intros Hdef He Hnd Hn Hv H0 H1.
  rewrite !(items_with_spec _ _ _ Hnd), Hv.
  split; [congruence|]. split; [congruence|].
  eexists. split; [apply interpret_defined; assumption|]. simpl.
  rewrite !list_elem_of_filter, (value_get _ _ _ Hv). unfold truthy.
  rewrite negb_involutive. split; [split; [|exact Hn]|intros [? _]]; lia.
Qed.

Lemma X12_witness :
  (2 ∉ items_with 0 [(1, 1); (2, -1); (3, -1); (4, 1); (5, 1)]) ∧
  (2 ∉ items_with 1 [(1, 1); (2, -1); (3, -1); (4, 1); (5, 1)]) ∧
  ∃ r, interpret G [(1, 1); (2, -1); (3, -1); (4, 1); (5, 1)] = Some r ∧
       2 ∈ S1 r ∧ (2 ∉ S0 r).
Proof.
  apply (X12_other_values G [(1, 1); (2, -1); (3, -1); (4, 1); (5, 1)] 2 (-1)).
  - intros n Hn. rewrite G_nodes in Hn. each_item Hn; eexists; reflexivity.
  - exact edges_G_in_nodes.
  - compute_done.
  - compute_done.
  - reflexivity.
  - lia.
  - lia.
Defined.

(** * The solving cell as a whole *)

Lemma cell_solve_unfold sample_qubo (ns : Namespace) :
  cell_solve sample_qubo ns
  = (q ← ns_Q ns;
     let call := {| call_Q := q; call_chain_strength := Some 8;
                    call_num_reads := Some 10 |} in
     rows ← print_rows (ss_iter (sample_qubo call)) (ss_data (sample_qubo call));
     best ← ss_lowest_first (sample_qubo call);
     g ← ns_G ns;
     plot ← interpret g (sample_of best);
     Some (set_parameters ns,
           {| out_call := call; out_rows := rows; out_plot := plot |})).
Proof.
  unfold cell_solve, dispatch. simpl. destruct (ns_Q ns); reflexivity.
Qed.

Lemma print_rows_fitting (lines : list sample) (data : list Sample) :
  Forall (λ line : sample,
            NoDup (PyDict.keys line) ∧
            ∀ n, n ∈ nodes G → ∃ b, PyDict.get line n = Some b ∧ (b = 0 ∨ b = 1))
         lines →
  Forall2 (λ (line : sample) d,
             energy d = float_of_Z (qubo_objective Q (value line))) lines data →
  ∃ rows, print_rows lines data = Some rows ∧
          Forall (λ r, row_cut r
                       = edges_between (edges G) (row_S0 r) (row_S1 r)) rows.
Proof.
  intros Hlines Hdata. induction Hdata as [|line d lines data Hd _ IH].
  - exists []. split; [reflexivity | constructor].
  - apply Forall_cons in Hlines as [[Hnd Hline] Hlines].
    destruct (IH Hlines) as (rows & Hrows & Hcut).
    pose proof (printed_cut line (energy d) Hnd Hline Hd) as Hint.
    eexists. simpl. rewrite Hint, Hrows. simpl. split; [reflexivity|].
    constructor; [reflexivity | exact Hcut].
Qed.

(** What the model computes for a sampler whose responses fit the
    problem. *)
Lemma notebook_fitting sample_qubo :
  (∀ call, fits_problem (sample_qubo call)) →
  ∃ out,
    notebook sample_qubo = Some (set_parameters (cell_setup fresh_kernel), out) ∧
    call_Q (out_call out) = Q ∧
    length (out_rows out) = length (ss_iter (sample_qubo (out_call out))) ∧
    Forall (λ r, row_cut r = edges_between (edges G) (row_S0 r) (row_S1 r))
           (out_rows out) ∧
    S0 (out_plot out) ++ S1 (out_plot out) ≡ₚ nodes G ∧
    cut_edges (out_plot out) ++ uncut_edges (out_plot out) ≡ₚ edges G ∧
    (length (cut_edges (out_plot out)) ≤ 5)%nat.
Proof.
  intros Hfit. unfold notebook. rewrite cell_solve_unfold.
  rewrite (proj2 (cell_setup_binds fresh_kernel)),
          (proj1 (cell_setup_binds fresh_kernel)).
  cbv beta iota zeta delta [mbind option_bind].
  destruct (Hfit {| call_Q := build_Q (edges G); call_chain_strength := Some 8;
                    call_num_reads := Some 10 |})
    as (Hlines & Hdata & best & Hbest & Hnd & Hkeys & Hbin).
  destruct (print_rows_fitting _ _ Hlines Hdata) as (rows & Hrows & Hcut).
  assert (Hdef : ∀ n, n ∈ nodes G →
                 ∃ b, PyDict.get (sample_of best) n = Some b ∧ binary b).
  { intros n Hn. apply binary_values; [exact Hbin|]. rewrite Hkeys. exact Hn. }
  rewrite Hrows, Hbest.
  rewrite (interpret_defined G (sample_of best)); cycle 1.
  { intros n (b & Hb & _)%Hdef. eauto. }
  { exact edges_G_in_nodes. }
  eexists. split; [reflexivity|].
  cbv beta iota delta [out_call out_rows out_plot call_Q S0 S1 cut_edges uncut_edges].
  split; [unfold Q; reflexivity|]. split.
  { apply print_rows_sets in Hrows. symmetry. eapply Forall2_length, Hrows. }
  split; [exact Hcut|].
  destruct (filter_complement (λ n, negb (truthy (value (sample_of best) n)))
              (λ n, truthy (value (sample_of best) n)) (nodes G)) as [Hp _].
  { intros n. symmetry. apply negb_involutive. }
  destruct (filter_complement
              (λ e : edge, negb (value (sample_of best) e.1 =? value (sample_of best) e.2))
              (λ e : edge, value (sample_of best) e.1 =? value (sample_of best) e.2)
              (edges G)) as [Hpe _].
  { intros e. symmetry. apply negb_involutive. }
  split; [exact Hp|]. split; [exact Hpe|].
  assert (Hle : cut_size (edges G) (value (sample_of best)) ≤ 5).
  { apply cut_size_G_le_5. intros n (b & Hb & Hbb)%Hdef.
    rewrite (value_get _ _ _ Hb). exact Hbb. }
  unfold cut_size in Hle.
  rewrite (list_filter_iff _
             (λ e : edge, value (sample_of best) e.1 ≠ value (sample_of best) e.2)).
  - lia.
  - intros e. rewrite negb_true_iff. lia.
Qed.

Lemma one_sample_fits (call : SampleCall) : fits_problem (one_sample_sampler call).
Proof.
  unfold fits_problem, one_sample_sampler.
  cbv beta iota zeta delta [ss_iter ss_data ss_lowest_first].
  split; [|split].
  - constructor; [|constructor]. split; [compute_done|].
    intros n Hn. rewrite G_nodes in Hn.
    each_item Hn; eexists; (split; [reflexivity|]); lia.
  - constructor; [|constructor]. vm_compute. reflexivity.
  - eexists. split; [reflexivity|].
    cbv beta iota delta [sample_of]. split; [compute_done|].
    split; [rewrite G_nodes; reflexivity|]. repeat constructor; simpl; lia.
Defined.

(** X14: whenever the notebook runs through, from a fresh kernel and with
    a sampler whose responses fit the problem, what it shows is consistent:
    the call carried [Q], the table has one row per sample, each with the
    number of edges between its two sets as Cut Size, and the plot shows
    the nodes and the edges of [G] once each, with at most five edges
    cut. *)
Theorem X14_notebook_output sample_qubo (ns' : Namespace) (out : Output) :
  (∀ call, fits_problem (sample_qubo call)) →
  notebook sample_qubo = Some (ns', out) →
  call_Q (out_call out) = Q ∧
  length (out_rows out) = length (ss_iter (sample_qubo (out_call out))) ∧
  Forall (λ r, row_cut r = edges_between (edges G) (row_S0 r) (row_S1 r))
         (out_rows out) ∧
  S0 (out_plot out) ++ S1 (out_plot out) ≡ₚ nodes G ∧
  cut_edges (out_plot out) ++ uncut_edges (out_plot out) ≡ₚ edges G ∧
  (length (cut_edges (out_plot out)) ≤ 5)%nat.
Proof.
  intros Hfit Hrun.
  destruct (notebook_fitting sample_qubo Hfit) as (out0 & Hrun0 & Hout).
  rewrite Hrun0 in Hrun. injection Hrun as _ <-. exact Hout.
Qed.

Lemma X14_witness :
  call_Q (out_call one_sample_output) = Q ∧
  length (out_rows one_sample_output)
  = length (ss_iter (one_sample_sampler (out_call one_sample_output))) ∧
  Forall (λ r, row_cut r = edges_between (edges G) (row_S0 r) (row_S1 r))
         (out_rows one_sample_output) ∧
  S0 (out_plot one_sample_output) ++ S1 (out_plot one_sample_output) ≡ₚ nodes G ∧
  cut_edges (out_plot one_sample_output) ++ uncut_edges (out_plot one_sample_output)
  ≡ₚ edges G ∧
  (length (cut_edges (out_plot one_sample_output)) ≤ 5)%nat.
Proof.
  exact (X14_notebook_output one_sample_sampler
           (set_parameters (cell_setup fresh_kernel)) one_sample_output
           one_sample_fits notebook_one_sample).
Defined.

(** * The text of the table *)

(** The head of the table and its first row, as the notebook shows them
    in its recorded output. *)
Example recorded_output :
  rule = "------------------------------------------------------------"%string ∧
  header = "          Set 0          Set 1    Energy        Cut Size    "%string ∧
  format_line (str_list [2; 3]) (str_list [1; 4; 5]) "-5.0" (str_int 5)
  = "         [2, 3]      [1, 4, 5]     -5.0             5       "%string ∧
  format_line (str_list [2; 3; 5]) (str_list [1; 4]) "-5.0" (str_int 5)
  = "      [2, 3, 5]         [1, 4]     -5.0             5       "%string.
Proof. vm_compute. repeat split. Qed.

Lemma length_append (a b : string) :
  String.length (String.append a b) = (String.length a + String.length b)%nat.
Proof. induction a as [|c a IH]; simpl; [reflexivity | rewrite IH; reflexivity]. Qed.

Lemma length_spaces (n : nat) : String.length (spaces n) = n.
Proof.
  unfold spaces. induction n as [|n IH]; [reflexivity|].
  destruct n as [|n]; [reflexivity|].
  change (String.length (String.append " " (String.append ""
            (String.concat "" (replicate (S n) " "%string)))) = S (S n)).
  rewrite !length_append, IH. reflexivity.
Qed.

Lemma length_rjust (width : nat) (s : string) :
  String.length (rjust width s) = (width `max` String.length s)%nat.
Proof. unfold rjust. rewrite length_append, length_spaces. lia. Qed.

Lemma length_center (width : nat) (s : string) :
  String.length (center width s) = (width `max` String.length s)%nat.
Proof.
  unfold center. rewrite !length_append, !length_spaces.
  assert ((width - String.length s) / 2 ≤ width - String.length s)%nat
    by (apply Nat.Div0.div_le_upper_bound; lia).
  lia.
Qed.

Lemma length_format_line (a b c d : string) :
  String.length (format_line a b c d)
  = ((15 `max` String.length a) + (15 `max` String.length b)
     + (15 `max` String.length c) + (15 `max` String.length d))%nat.
Proof.
  unfold format_line.
  rewrite !length_append, !length_rjust, !length_center. lia.
Qed.

(** X15: a line of the table is at least 60 characters wide, as wide as
    the rule above it, and exactly 60 when each of its four texts has at
    most 15 characters; a longer text is never cut, it widens the line. *)
Theorem X15_line_width (a b c d : string) :
  String.length (format_line a b c d)
  = ((15 `max` String.length a) + (15 `max` String.length b)
     + (15 `max` String.length c) + (15 `max` String.length d))%nat ∧
  (String.length rule ≤ String.length (format_line a b c d))%nat ∧
  ((String.length a ≤ 15)%nat → (String.length b ≤ 15)%nat →
   (String.length c ≤ 15)%nat → (String.length d ≤ 15)%nat →
   String.length (format_line a b c d) = String.length rule) ∧
  String.length header = String.length rule.
Proof.
  assert (Hrule : String.length rule = 60%nat) by reflexivity.
  rewrite length_format_line, Hrule.
  split; [reflexivity|]. split; [lia|]. split; [lia | reflexivity].
Qed.

Lemma length_str_digit (n : Z) : 0 ≤ n ≤ 9 → String.length (str_int n) = 1%nat.
Proof.
  intros Hn.
  assert (H : n = 0 ∨ n = 1 ∨ n = 2 ∨ n = 3 ∨ n = 4 ∨ n = 5 ∨ n = 6
              ∨ n = 7 ∨ n = 8 ∨ n = 9) by lia.
  repeat (destruct H as [-> | H]; [reflexivity|]). subst n. reflexivity.
Qed.

Lemma length_str_list_digits (l : list Z) :
  Forall (λ n, 0 ≤ n ≤ 9) l →
  String.length (str_list l) = (if l is [] then 2 else 3 * length l)%nat.
Proof.
  intros Hl. unfold str_list. rewrite !length_append.
  assert (H : l ≠ [] →
    String.length (join_comma (map str_int l)) = (3 * length l - 2)%nat).
  { induction Hl as [|n l Hn Hl IH]; [congruence|]. intros _.
    destruct l as [|m l].
    - simpl. rewrite (length_str_digit n Hn). reflexivity.
    - change (join_comma (map str_int (n :: m :: l)))
        with (String.append (str_int n)
                (String.append ", " (join_comma (map str_int (m :: l))))).
      rewrite !length_append, (length_str_digit n Hn), IH by congruence.
      change (String.length ", ") with 2%nat. simpl length. lia. }
  destruct l as [|n l]; [reflexivity|].
  rewrite H by congruence.
  change (String.length "[") with 1%nat. change (String.length "]") with 1%nat.
  simpl length. lia.
Qed.

(** X16: for a sample whose variables are nodes of [G], each listed once,
    the texts of Set 0 and Set 1 never exceed their 15 columns (the five
    nodes together take exactly 15), so with an energy text of at most 15
    characters and a one-digit cut size every row is exactly as wide as
    the rule. *)
Theorem X16_rows_fit (line : sample) (E : string) (cut : Z) :
  NoDup (PyDict.keys line) →
  (∀ k, k ∈ PyDict.keys line → k ∈ nodes G) →
  (String.length E ≤ 15)%nat → 0 ≤ cut ≤ 9 →
  (String.length (str_list (items_with 0 line)) ≤ 15)%nat ∧
  (String.length (str_list (items_with 1 line)) ≤ 15)%nat ∧
  String.length (format_line (str_list (items_with 0 line))
                             (str_list (items_with 1 line)) E (str_int cut))
  = String.length rule.
Proof.
  intros Hnd Hsub HE Hcut.
  assert (Hitems : ∀ c, (String.length (str_list (items_with c line)) ≤ 15)%nat).
  { intros c.
    assert (Hin : ∀ k, k ∈ items_with c line → k ∈ nodes G).
    { intros k Hk. apply Hsub, keys_get.
      apply (items_with_spec line c k Hnd) in Hk. eauto. }
    assert (Hlen : (length (items_with c line) ≤ 5)%nat).
    { change 5%nat with (length [1; 2; 3; 4; 5]). rewrite <- G_nodes.
      apply submseteq_length, NoDup_submseteq;
        [apply items_with_NoDup, Hnd | exact Hin]. }
    rewrite length_str_list_digits.
    - unfold node in *. destruct (items_with c line); simpl length in *; lia.
    - apply Forall_forall. intros k Hk%Hin. rewrite G_nodes in Hk.
      each_item Hk; lia. }
  split; [apply Hitems|]. split; [apply Hitems|].
  rewrite length_format_line, (length_str_digit cut Hcut).
  pose proof (Hitems 0). pose proof (Hitems 1).
  change (String.length rule) with 60%nat. lia.
Qed.

Lemma X16_witness :
  (String.length (str_list (items_with 0 first_recorded_sample)) ≤ 15)%nat ∧
  (String.length (str_list (items_with 1 first_recorded_sample)) ≤ 15)%nat ∧
  String.length
    (format_line (str_list (items_with 0 first_recorded_sample))
                 (str_list (items_with 1 first_recorded_sample))
                 "-5.0" (str_int 5))
  = String.length rule.
Proof.
  apply (X16_rows_fit first_recorded_sample "-5.0" 5).
  - compute_done.
  - intros k Hk. rewrite G_nodes. exact Hk.
  - simpl. lia.
  - lia.
Defined.

(** * Graphs built from any edge list *)

Section DictFacts.
Context {K V : Type} `{EqDecision K}.
Implicit Types (d : list (K * V)) (k : K) (v : V).

Lemma dict_get_set d k v k' :
  PyDict.get (PyDict.set d k v) k'
  = if decide (k = k') then Some v else PyDict.get d k'.
Proof.
  induction d as [|[k0 v0] d IH]; simpl.
  - reflexivity.
  - destruct (decide (k0 = k)) as [-> | Hk0]; simpl.
    + repeat case_decide; congruence.
    + rewrite IH. repeat case_decide; congruence.
Qed.

Lemma dict_keys_get d k : k ∈ PyDict.keys d ↔ is_Some (PyDict.get d k).
Proof.
  unfold PyDict.keys. induction d as [|[k0 v0] d IH]; simpl.
  - split; [intros []%elem_of_nil | intros [? [=]]].
  - rewrite elem_of_cons. case_decide; [subst; split; eauto|].
    rewrite IH. split; [intros [? | ?]; congruence || assumption | auto].
Qed.

Lemma dict_mem_keys d k : PyDict.mem d k = true ↔ k ∈ PyDict.keys d.
Proof.
  rewrite dict_keys_get. unfold PyDict.mem.
  destruct (PyDict.get d k); split; eauto; try discriminate.
  intros [? [=]].
Qed.

Lemma dict_keys_set d k v :
  PyDict.keys (PyDict.set d k v)
  = if PyDict.mem d k then PyDict.keys d else PyDict.keys d ++ [k].
Proof.
  unfold PyDict.keys, PyDict.mem. induction d as [|[k0 v0] d IH]; simpl.
  - reflexivity.
  - destruct (decide (k0 = k)) as [-> | Hk0]; simpl; [reflexivity|].
    rewrite IH. destruct (PyDict.get d k); reflexivity.
Qed.

Lemma dict_elem_keys_set d k v k' :
  k' ∈ PyDict.keys (PyDict.set d k v) ↔ k' ∈ PyDict.keys d ∨ k' = k.
Proof.
  rewrite dict_keys_set. destruct (PyDict.mem d k) eqn:Hm.
  - apply dict_mem_keys in Hm. split; [auto | intros [? | ->]; assumption].
  - rewrite elem_of_app, list_elem_of_singleton. reflexivity.
Qed.

Lemma dict_NoDup_set d k v :
  NoDup (PyDict.keys d) → NoDup (PyDict.keys (PyDict.set d k v)).
Proof.
  intros Hnd. rewrite dict_keys_set. destruct (PyDict.mem d k) eqn:Hm; [exact Hnd|].
  apply NoDup_app. split; [exact Hnd|]. split; [|apply NoDup_singleton].
  intros k' Hk' ->%list_elem_of_singleton.
  apply dict_mem_keys in Hk'. congruence.
Qed.
End DictFacts.

Lemma add_edge_steps (g : Graph) (u v : node) :
  add_edge g (u, v) = {| adj := link (link (ensure (ensure (adj g) u) v) u v) v u |}.
Proof. reflexivity. Qed.

Lemma neighbours_ensure (a : list (node * list (node * unit))) (u x : node) :
  neighbours {| adj := ensure a u |} x = neighbours {| adj := a |} x.
Proof.
  unfold neighbours, ensure. simpl. destruct (PyDict.mem a u) eqn:Hm; [reflexivity|].
  rewrite dict_get_set. case_decide; [subst|reflexivity].
  unfold PyDict.mem in Hm. destruct (PyDict.get a x); [discriminate | reflexivity].
Qed.

Lemma nodes_ensure (a : list (node * list (node * unit))) (u n : node) :
  n ∈ nodes {| adj := ensure a u |} ↔ n ∈ nodes {| adj := a |} ∨ n = u.
Proof.
  unfold nodes, ensure. simpl. destruct (PyDict.mem a u) eqn:Hm.
  - apply dict_mem_keys in Hm. split; [auto | intros [? | ->]; assumption].
  - apply dict_elem_keys_set.
Qed.

Lemma NoDup_ensure (a : list (node * list (node * unit))) (u : node) :
  NoDup (nodes {| adj := a |}) → NoDup (nodes {| adj := ensure a u |}).
Proof.
  unfold nodes, ensure. simpl. destruct (PyDict.mem a u); [auto|].
  apply dict_NoDup_set.
Qed.

Lemma neighbours_link (a : list (node * list (node * unit))) (u v x : node) :
  neighbours {| adj := link a u v |} x
  = if decide (u = x)
    then PyDict.keys (PyDict.set (default [] (PyDict.get a u)) v tt)
    else neighbours {| adj := a |} x.
Proof.
  unfold neighbours, link. simpl. rewrite dict_get_set.
  case_decide; reflexivity.
Qed.

Lemma elem_neighbours_link (a : list (node * list (node * unit))) (u v x y : node) :
  y ∈ neighbours {| adj := link a u v |} x
  ↔ y ∈ neighbours {| adj := a |} x ∨ (x = u ∧ y = v).
Proof.
  rewrite neighbours_link. case_decide as Hux.
  - subst x. rewrite dict_elem_keys_set. unfold neighbours. simpl. tauto.
  - split; [auto | intros [? | [-> _]]; [assumption | congruence]].
Qed.

Lemma nodes_link (a : list (node * list (node * unit))) (u v n : node) :
  n ∈ nodes {| adj := link a u v |} ↔ n ∈ nodes {| adj := a |} ∨ n = u.
Proof. unfold nodes, link. simpl. apply dict_elem_keys_set. Qed.

Lemma elem_neighbours_add_edge (g : Graph) (u v x y : node) :
  y ∈ neighbours (add_edge g (u, v)) x
  ↔ y ∈ neighbours g x ∨ (x = u ∧ y = v) ∨ (x = v ∧ y = u).
Proof.
  rewrite add_edge_steps, !elem_neighbours_link, !neighbours_ensure.
  destruct g as [a]. simpl. tauto.
Qed.

Lemma elem_nodes_add_edge (g : Graph) (u v n : node) :
  n ∈ nodes (add_edge g (u, v)) ↔ n ∈ nodes g ∨ n = u ∨ n = v.
Proof.
  rewrite add_edge_steps, !nodes_link, !nodes_ensure.
  destruct g as [a]. simpl. tauto.
Qed.

Lemma graph_wf_add_edge (g : Graph) (e : edge) :
  graph_wf g → graph_wf (add_edge g e).
Proof.
  destruct e as [u v], g as [a]. intros (Hnd & Hnb & Hsym & Hin).
  assert (H1 : ∀ z, NoDup (neighbours {| adj := link (ensure (ensure a u) v) u v |} z)).
  { intros z. rewrite neighbours_link. case_decide.
    - apply dict_NoDup_set.
      specialize (Hnb u).
      rewrite <- (neighbours_ensure a u), <- (neighbours_ensure _ v) in Hnb.
      exact Hnb.
    - rewrite !neighbours_ensure. apply Hnb. }
  split; [|split; [|split]].
  - rewrite add_edge_steps. unfold nodes, link. cbn [adj].
    do 2 apply dict_NoDup_set. apply (NoDup_ensure _ v), (NoDup_ensure _ u).
    exact Hnd.
  - intros x. rewrite add_edge_steps. cbn [adj]. rewrite neighbours_link.
    case_decide; [|apply H1]. apply dict_NoDup_set, (H1 v).
  - intros x y. rewrite !elem_neighbours_add_edge.
    intros [H | [[-> ->] | [-> ->]]]; auto.
  - intros x y. rewrite elem_neighbours_add_edge, !elem_nodes_add_edge.
    intros [H | [[-> ->] | [-> ->]]]; auto.
    destruct (Hin x y H). auto.
Qed.

Lemma graph_wf_empty : graph_wf empty_graph.
Proof.
  split; [apply NoDup_nil_2|]. split; [intros x; apply NoDup_nil_2|].
  split; intros x y []%elem_of_nil.
Qed.

Lemma graph_wf_foldl (es : list edge) (g : Graph) :
  graph_wf g → graph_wf (foldl add_edge g es).
Proof.
  revert g. induction es as [|e es IH]; intros g Hg; cbn [foldl]; [exact Hg|].
  apply IH, graph_wf_add_edge, Hg.
Qed.

Lemma elem_neighbours_foldl (es : list edge) (g : Graph) (x y : node) :
  y ∈ neighbours (foldl add_edge g es) x
  ↔ y ∈ neighbours g x ∨ (x, y) ∈ es ∨ (y, x) ∈ es.
Proof.
  revert g. induction es as [|[u v] es IH]; intros g; cbn [foldl].
  - split; [auto | intros [H | [[]%elem_of_nil | []%elem_of_nil]]; exact H].
  - rewrite IH, elem_neighbours_add_edge, !elem_of_cons.
    assert (H1 : (x, y) = (u, v) ↔ x = u ∧ y = v)
      by (split; [intros [= -> ->] | intros [-> ->]]; auto).
    assert (H2 : (y, x) = (u, v) ↔ y = u ∧ x = v)
      by (split; [intros [= -> ->] | intros [-> ->]]; auto).
    rewrite H1, H2. tauto.
Qed.

Lemma elem_nodes_foldl (es : list edge) (g : Graph) (n : node) :
  n ∈ nodes (foldl add_edge g es)
  ↔ n ∈ nodes g ∨ ∃ e, e ∈ es ∧ (n = e.1 ∨ n = e.2).
Proof.
  revert g. induction es as [|[u v] es IH]; intros g; cbn [foldl].
  - split; [auto | intros [H | (e & []%elem_of_nil & _)]; exact H].
  - rewrite IH, elem_nodes_add_edge. split.
    + intros [[H | H] | (e & He & H)].
      * auto.
      * right. exists (u, v). rewrite elem_of_cons. simpl. tauto.
      * right. exists e. rewrite elem_of_cons. tauto.
    + intros [H | (e & He & H)]; [auto|].
      apply elem_of_cons in He as [-> | He]; [simpl in H; tauto|].
      right. eauto.
Qed.

Lemma has_edge_neighbours (g : Graph) (u v : node) :
  has_edge g u v = true ↔ v ∈ neighbours g u.
Proof.
  unfold has_edge, neighbours. destruct (PyDict.get (adj g) u) as [nbrs|]; simpl.
  - apply dict_mem_keys.
  - split; [discriminate | intros []%elem_of_nil].
Qed.

Lemma edges_from_elem (a : list (node * list (node * unit))) (seen : list node)
    (x y : node) :
  NoDup (PyDict.keys a) →
  (x, y) ∈ edges_from a seen
  ↔ ∃ nb, PyDict.get a x = Some nb ∧ y ∈ PyDict.keys nb
          ∧ (y ∉ seen) ∧ (y ∉ before a x).
Proof.
  revert seen. induction a as [|[n nbrs] a IH]; intros seen Hnd.
  - simpl. split; [intros []%elem_of_nil | intros (? & [=] & _)].
  - cbn [PyDict.keys map fst] in Hnd. apply NoDup_cons in Hnd as [Hn Hnd].
    cbn [edges_from PyDict.get before]. rewrite elem_of_app, (IH _ Hnd).
    rewrite list_elem_of_In, in_map_iff.
    destruct (decide (n = x)) as [-> | Hnx].
    + split.
      * intros [(y' & [= <-] & Hy%list_elem_of_In%list_elem_of_filter) | (nb & Hget & _)].
        -- exists nbrs. destruct Hy as [Hs Hy].
           repeat split; [exact Hy | exact Hs | apply not_elem_of_nil].
        -- destruct Hn. apply dict_keys_get. eauto.
      * intros (nb & [= <-] & Hy & Hs & _). left. exists y.
        split; [reflexivity|]. apply list_elem_of_In, list_elem_of_filter. auto.
    + split.
      * intros [(y' & [= ? ?] & _) | (nb & Hget & Hy & Hs & Hb)]; [congruence|].
        exists nb. rewrite not_elem_of_cons in Hs. destruct Hs as [Hyn Hs].
        repeat split; try assumption. rewrite not_elem_of_cons. auto.
      * intros (nb & Hget & Hy & Hs & Hb). right. exists nb.
        rewrite not_elem_of_cons in Hb. destruct Hb as [Hyn Hb].
        repeat split; try assumption. rewrite not_elem_of_cons. auto.
Qed.

Lemma before_order (a : list (node * list (node * unit))) (x y : node) :
  x ∈ PyDict.keys a → y ∈ PyDict.keys a → x ≠ y →
  (y ∈ before a x ∧ (x ∉ before a y)) ∨ (x ∈ before a y ∧ (y ∉ before a x)).
Proof.
  induction a as [|[n nbrs] a IH]; cbn [PyDict.keys map fst before].
  - intros []%elem_of_nil.
  - rewrite !elem_of_cons. intros Hx Hy Hxy.
    destruct (decide (n = x)) as [Enx | Hnx], (decide (n = y)) as [Eny | Hny].
    + congruence.
    + right. split; [apply elem_of_cons; auto | apply not_elem_of_nil].
    + left. split; [apply elem_of_cons; auto | apply not_elem_of_nil].
    + destruct Hx as [? | Hx]; [congruence|].
      destruct Hy as [? | Hy]; [congruence|].
      rewrite !elem_of_cons.
      destruct (IH Hx Hy Hxy) as [[H1 H2] | [H1 H2]]; [left | right];
        (split; [auto | intros [? | ?]; [congruence | auto]]).
Qed.

Lemma edges_from_NoDup (a : list (node * list (node * unit))) (seen : list node) :
  NoDup (PyDict.keys a) →
  (∀ n nb, PyDict.get a n = Some nb → NoDup (PyDict.keys nb)) →
  NoDup (edges_from a seen).
Proof.
  revert seen. induction a as [|[n nbrs] a IH]; intros seen Hnd Hnb.
  - constructor.
  - pose proof Hnd as Hnd0.
    cbn [PyDict.keys map fst] in Hnd. apply NoDup_cons in Hnd as [Hn Hnd].
    cbn [edges_from]. apply NoDup_app. split; [|split].
    + apply (NoDup_fmap_2 (λ nbr, (n, nbr))).
      apply NoDup_filter, (Hnb n). simpl. rewrite decide_True by reflexivity.
      reflexivity.
    + intros [x y] Hin1 Hin2.
      apply list_elem_of_In, in_map_iff in Hin1 as (y' & [= <- <-] & _).
      apply (edges_from_elem a _ _ _ Hnd) in Hin2 as (nb & Hget & _).
      apply Hn, dict_keys_get. eauto.
    + apply IH; [exact Hnd|]. intros m nb Hget. apply (Hnb m). simpl.
      rewrite decide_False; [exact Hget|]. intros ->.
      apply Hn, dict_keys_get. eauto.
Qed.

Lemma neighbours_get (g : Graph) (x y : node) :
  y ∈ neighbours g x ↔ ∃ nb, PyDict.get (adj g) x = Some nb ∧ y ∈ PyDict.keys nb.
Proof.
  unfold neighbours. destruct (PyDict.get (adj g) x) as [nb|]; simpl.
  - split; [eauto | intros (? & [= <-] & ?); assumption].
  - split; [intros []%elem_of_nil | intros (? & [=] & _)].
Qed.

Lemma edges_elem (g : Graph) (x y : node) :
  graph_wf g →
  (x, y) ∈ edges g ↔ y ∈ neighbours g x ∧ (y ∉ before (adj g) x).
Proof.
  intros (Hnd & _). unfold edges. rewrite (edges_from_elem _ _ _ _ Hnd), neighbours_get.
  split.
  - intros (nb & Hget & Hy & _ & Hb). eauto.
  - intros [(nb & Hget & Hy) Hb]. exists nb.
    repeat split; try assumption. apply not_elem_of_nil.
Qed.

Lemma edges_wf (g : Graph) :
  graph_wf g →
  NoDup (edges g) ∧
  (∀ x y, (x, y) ∈ edges g →
          y ∈ neighbours g x ∧ x ∈ nodes g ∧ y ∈ nodes g) ∧
  (∀ x y, y ∈ neighbours g x → (x, y) ∈ edges g ∨ (y, x) ∈ edges g) ∧
  (∀ x y, x ≠ y → (x, y) ∈ edges g → (y, x) ∉ edges g).
Proof.
  intros Hwf. pose proof Hwf as (Hnd & Hnb & Hsym & Hin).
  split; [|split; [|split]].
  - apply edges_from_NoDup; [exact Hnd|]. intros n nb Hget.
    specialize (Hnb n). unfold neighbours in Hnb. rewrite Hget in Hnb. exact Hnb.
  - intros x y [Hy _]%(edges_elem g x y Hwf). split; [exact Hy | apply Hin, Hy].
  - intros x y Hy. rewrite !(edges_elem g _ _ Hwf).
    destruct (decide (x = y)) as [-> | Hxy].
    + left. split; [exact Hy|].
      clear. induction (adj g) as [|[n nbrs] a IH]; simpl; [apply not_elem_of_nil|].
      case_decide; [apply not_elem_of_nil|]. rewrite not_elem_of_cons. auto.
    + destruct (Hin x y Hy) as [Hx Hy'].
      destruct (before_order (adj g) x y Hx Hy' Hxy) as [[H1 H2] | [H1 H2]].
      * right. split; [apply Hsym, Hy | exact H2].
      * left. split; [exact Hy | exact H2].
  - intros x y Hxy [Hy Hb]%(edges_elem g x y Hwf) [Hx Hb']%(edges_elem g y x Hwf).
    destruct (Hin x y Hy) as [Hx' Hy'].
    destruct (before_order (adj g) x y Hx' Hy' Hxy) as [[H1 H2] | [H1 H2]]; auto.
Qed.

(** X17: [add_edges_from] also adds the nodes: whatever the edge list,
    the nodes of the graph are exactly the ends of the listed edges, each
    node once. *)
Theorem X17_nodes_of_any_edge_list (es : list edge) :
  NoDup (nodes (add_edges_from empty_graph es)) ∧
  (∀ n, n ∈ nodes (add_edges_from empty_graph es)
        ↔ ∃ e, e ∈ es ∧ (n = e.1 ∨ n = e.2)).
Proof.
  split.
  - apply (graph_wf_foldl es empty_graph graph_wf_empty).
  - intros n. unfold add_edges_from. rewrite elem_nodes_foldl. split.
    + intros [[]%elem_of_nil | H]. exact H.
    + auto.
Qed.

(** X18: the graph is undirected: after [add_edges_from] two nodes are
    joined exactly when the list holds the pair in one order or the other,
    and [has_edge] does not depend on the order of its arguments. *)
Theorem X18_has_edge_of_any_edge_list (es : list edge) (u v : node) :
  (has_edge (add_edges_from empty_graph es) u v = true
   ↔ (u, v) ∈ es ∨ (v, u) ∈ es) ∧
  has_edge (add_edges_from empty_graph es) u v
  = has_edge (add_edges_from empty_graph es) v u.
Proof.
  assert (H : ∀ a b, has_edge (add_edges_from empty_graph es) a b = true
                     ↔ (a, b) ∈ es ∨ (b, a) ∈ es).
  { intros a b. rewrite has_edge_neighbours. unfold add_edges_from.
    rewrite elem_neighbours_foldl. split; [|auto].
    intros [[]%elem_of_nil | Hab]. exact Hab. }
  split; [apply H|]. apply eq_true_iff_eq. rewrite !H. tauto.
Qed.

(** X19: iterating over [G.edges] visits every undirected edge exactly
    once, however often and in whichever order the pair was listed: the
    edges come without repetition, each is a joined pair of nodes, every
    joined pair comes in one orientation, and two different nodes never
    come in both. *)
Theorem X19_each_edge_once (es : list edge) :
  NoDup (edges (add_edges_from empty_graph es)) ∧
  (∀ u v, (u, v) ∈ edges (add_edges_from empty_graph es) →
          ((u, v) ∈ es ∨ (v, u) ∈ es) ∧
          u ∈ nodes (add_edges_from empty_graph es) ∧
          v ∈ nodes (add_edges_from empty_graph es)) ∧
  (∀ u v, (u, v) ∈ es →
          (u, v) ∈ edges (add_edges_from empty_graph es) ∨
          (v, u) ∈ edges (add_edges_from empty_graph es)) ∧
  (∀ u v, u ≠ v → (u, v) ∈ edges (add_edges_from empty_graph es) →
          (v, u) ∉ edges (add_edges_from empty_graph es)).
Proof.
  pose proof (graph_wf_foldl es empty_graph graph_wf_empty) as Hwf.
  fold (add_edges_from empty_graph es) in Hwf.
  destruct (edges_wf _ Hwf) as (Hnd & Hin & Hout & Hone).
  assert (Hnb : ∀ x y, y ∈ neighbours (add_edges_from empty_graph es) x
                       ↔ (x, y) ∈ es ∨ (y, x) ∈ es).
  { intros x y. unfold add_edges_from. rewrite elem_neighbours_foldl.
    split; [|auto]. intros [[]%elem_of_nil | H]. exact H. }
  split; [exact Hnd|]. split; [|split; [|exact Hone]].
  - intros u v (Hy & Hu & Hv)%Hin. rewrite Hnb in Hy. auto.
  - intros u v He. apply Hout, Hnb. auto.
Qed.

Lemma filter_all {A} (P : A → Prop) `{∀ a, Decision (P a)} (l : list A) :
  Forall P l → filter P l = l.
Proof.
  induction 1 as [|a l Ha _ IH]; [reflexivity|].
  rewrite filter_cons, decide_True by exact Ha. rewrite IH. reflexivity.
Qed.

Lemma count_NoDup (l : list edge) (k : edge) :
  NoDup l →
  length (filter (λ e : edge, e = k) l) = if decide (k ∈ l) then 1%nat else 0%nat.
Proof.
  induction 1 as [|e l He Hnd IH]; [reflexivity|].
  rewrite filter_cons.
  destruct (decide (e = k)) as [-> | Hek]; simpl length; rewrite IH.
  - rewrite (decide_True (P := k ∈ k :: l)) by (apply elem_of_cons; auto).
    rewrite decide_False by exact He. reflexivity.
  - destruct (decide (k ∈ l)) as [Hk | Hk].
    + rewrite decide_True by (apply elem_of_cons; auto). reflexivity.
    + rewrite decide_False; [reflexivity|].
      intros [? | ?]%elem_of_cons; [congruence | contradiction].
Qed.

Lemma other_ends (g : Graph) (i : node) :
  graph_wf g →
  map snd (filter (λ e : edge, e.1 = i ∧ e.2 ≠ i) (edges g))
  ++ map fst (filter (λ e : edge, e.2 = i ∧ e.1 ≠ i) (edges g))
  ≡ₚ filter (λ y, y ≠ i) (neighbours g i).
Proof.
  intros Hwf. destruct (edges_wf g Hwf) as (Hnd & Hin & Hout & Hone).
  pose proof Hwf as (_ & Hnb & Hsym & _).
  assert (HA : ∀ y, y ∈ map snd (filter (λ e : edge, e.1 = i ∧ e.2 ≠ i) (edges g))
                    ↔ (i, y) ∈ edges g ∧ y ≠ i).
  { intros y. rewrite list_elem_of_In, in_map_iff. split.
    - intros ([a b] & <- & [[Ha Hb] He]%list_elem_of_In%list_elem_of_filter).
      simpl in *. subst a. auto.
    - intros [He Hy]. exists (i, y). split; [reflexivity|].
      apply list_elem_of_In, list_elem_of_filter. auto. }
  assert (HB : ∀ y, y ∈ map fst (filter (λ e : edge, e.2 = i ∧ e.1 ≠ i) (edges g))
                    ↔ (y, i) ∈ edges g ∧ y ≠ i).
  { intros y. rewrite list_elem_of_In, in_map_iff. split.
    - intros ([a b] & <- & [[Hb Ha] He]%list_elem_of_In%list_elem_of_filter).
      simpl in *. subst b. auto.
    - intros [He Hy]. exists (y, i). split; [reflexivity|].
      apply list_elem_of_In, list_elem_of_filter. auto. }
  apply NoDup_Permutation.
  - apply NoDup_app. split; [|split].
    + apply (NoDup_fmap_2_strong snd); [|apply NoDup_filter, Hnd].
      intros [a b] [a' b'] [[Ha _] _]%list_elem_of_filter
             [[Ha' _] _]%list_elem_of_filter Hbb.
      simpl in *. congruence.
    + intros y [He Hy]%HA [He' _]%HB. exact (Hone i y (not_eq_sym Hy) He He').
    + apply (NoDup_fmap_2_strong fst); [|apply NoDup_filter, Hnd].
      intros [a b] [a' b'] [[Hb _] _]%list_elem_of_filter
             [[Hb' _] _]%list_elem_of_filter Haa.
      simpl in *. congruence.
  - apply NoDup_filter, Hnb.
  - intros y. rewrite elem_of_app, HA, HB, list_elem_of_filter. split.
    + intros [[He Hy] | [He Hy]]; (split; [exact Hy|]).
      * apply Hin, He.
      * apply Hsym, Hin, He.
    + intros [Hy Hnbr]. destruct (Hout i y Hnbr); auto.
Qed.

(** X20: for the graph of any edge list, however often and in whichever
    order an edge was listed, the loop gives two joined different nodes
    the coefficient 2 under one of their two keys and nothing under the
    other, gives pairs that are not joined nothing, and leaves on the
    diagonal minus the number of neighbours other than the node itself,
    which is minus the degree when the node has no self-loop. *)
Theorem X20_qubo_of_any_graph (es : list edge) :
  (∀ u v, u ≠ v →
     coefficient (build_Q (edges (add_edges_from empty_graph es))) (u, v)
     + coefficient (build_Q (edges (add_edges_from empty_graph es))) (v, u)
     = if has_edge (add_edges_from empty_graph es) u v then 2 else 0) ∧
  (∀ i, coefficient (build_Q (edges (add_edges_from empty_graph es))) (i, i)
        = - Z.of_nat (length (filter (λ y, y ≠ i)
                                (neighbours (add_edges_from empty_graph es) i)))) ∧
  (∀ i, i ∉ neighbours (add_edges_from empty_graph es) i →
        coefficient (build_Q (edges (add_edges_from empty_graph es))) (i, i)
        = - degree (add_edges_from empty_graph es) i).
Proof.
  pose proof (graph_wf_foldl es empty_graph graph_wf_empty) as Hwf.
  fold (add_edges_from empty_graph es) in Hwf.
  set (g := add_edges_from empty_graph es) in *.
  destruct (edges_wf g Hwf) as (Hnd & Hin & Hout & Hone).
  pose proof Hwf as (_ & _ & Hsym & _).
  assert (Hdiag : ∀ i, coefficient (build_Q (edges g)) (i, i)
                 = - Z.of_nat (length (filter (λ y, y ≠ i) (neighbours g i)))).
  { intros i. unfold build_Q. rewrite coefficient_foldl_diag.
    rewrite <- (other_ends g i Hwf), length_app, !length_map.
    unfold coefficient. rewrite lookup_empty. simpl.
    rewrite Nat2Z.inj_add. unfold edge, node. lia. }
  split; [|split; [exact Hdiag|]].
  - intros u v Huv. unfold build_Q.
    rewrite !coefficient_foldl_off by congruence.
    rewrite !(count_NoDup _ _ Hnd). unfold coefficient. rewrite lookup_empty.
    destruct (has_edge g u v) eqn:Hh.
    + apply has_edge_neighbours in Hh.
      destruct (Hout u v Hh) as [He | He].
      * rewrite (decide_True (P := (u, v) ∈ edges g)) by exact He.
        rewrite (decide_False (P := (v, u) ∈ edges g))
          by exact (Hone u v Huv He).
        reflexivity.
      * rewrite (decide_True (P := (v, u) ∈ edges g)) by exact He.
        rewrite (decide_False (P := (u, v) ∈ edges g))
          by exact (Hone v u (not_eq_sym Huv) He).
        reflexivity.
    + assert (Hno : ¬ v ∈ neighbours g u).
      { intros H%has_edge_neighbours. congruence. }
      rewrite !decide_False; [reflexivity| |].
      * intros He%Hin. apply Hno, Hsym, He.
      * intros He%Hin. apply Hno, He.
  - intros i Hi. rewrite Hdiag. unfold degree, neighbours in *.
    destruct (PyDict.get (adj g) i) as [nbrs|]; simpl in *; [|reflexivity].
    assert (Hm : PyDict.mem nbrs i = false).
    { destruct (PyDict.mem nbrs i) eqn:Hm; [|reflexivity].
      apply dict_mem_keys in Hm. contradiction. }
    rewrite Hm. f_equal.
    replace (filter (λ y, y ≠ i) (PyDict.keys nbrs)) with (PyDict.keys nbrs).
    + unfold PyDict.keys. rewrite length_map. lia.
    + symmetry. apply filter_all, Forall_forall. intros y Hy ->. contradiction.
Qed.
